(** * Portfolio tracker: ledger, rate aggregation and alert evaluation

    A shallow embedding of [portfolio_tracker.py].

    Conventions of the embedding:
    - a Python [float] is an exact rational ([Qc], the canonical rationals
      with Leibniz equality): the operations are those of the source, in
      the order of the source, without rounding, infinities and NaN; the
      integers and floats of a JSON payload are such rationals too, so an
      integer beyond the range of a float, on which Python raises
      [OverflowError], is outside the model;
    - the two arithmetic loops, of [calculate_average_cost_basis] and of
      [get_advanced_forex_rate], are embedded a second time in the module
      [Binary64], over binary64 numbers with the rounding of the source;
      what depends on rounding, or on the order of the operations, is
      stated there;
    - the SQLAlchemy session is a record of tables, each table the list
      of its rows in storage order; a query is a list function over them;
    - an HTTP exchange is a function from requests to responses, taken as
      a section variable;
    - a Python exception is a constructor of [exn]; code that can raise
      returns a [result]. *)

From Stdlib Require Import QArith Qcanon.
From Stdlib Require Floats.
From stdpp Require Import numbers base option list strings gmap fin_maps.

Local Open Scope Qc_scope.
#[local] Set Warnings "-register-all".
#[local] Set Warnings "-inexact-float".

Abbreviation float := Qc.

(** Decimal literals of the source, as fractions. *)
Definition qc (n : Z) (d : positive) : float := Q2Qc (n # d).

(** ** Numeric helpers *)

(** [sum(xs)] over rationals. *)
Definition Qcsum (xs : list float) : float := foldr Qcplus 0 xs.

(** ** 1. Database rows *)

Module User.
Record t := mk { id : Z; username : string; email : string }.
End User.

Module Symbol.
Record t := mk { id : Z; name : string; symbol_type : string }.
End Symbol.

Module Transaction.
(** [quantity > 0] is a buy, [quantity < 0] a sell; [price] is per unit. *)
Record t := mk {
  id : Z;
  user_id : Z;
  symbol_id : Z;
  quantity : float;
  price : float;
  timestamp : Z
}.
End Transaction.

Module Alert.
(** Both thresholds are nullable columns: [None] is SQL NULL. *)
Record t := mk {
  id : Z;
  user_id : Z;
  symbol_id : Z;
  upper_threshold : option float;
  lower_threshold : option float;
  active : bool
}.
End Alert.

#[global] Instance user_eq_dec : EqDecision User.t.
Proof. solve_decision. Defined.
#[global] Instance symbol_eq_dec : EqDecision Symbol.t.
Proof. solve_decision. Defined.
#[global] Instance transaction_eq_dec : EqDecision Transaction.t.
Proof. solve_decision. Defined.
#[global] Instance alert_eq_dec : EqDecision Alert.t.
Proof. solve_decision. Defined.

Record session := Session {
  users : list User.t;
  symbols : list Symbol.t;
  transactions : list Transaction.t;
  alerts : list Alert.t
}.

(** [session.add(t); session.commit()] for one transaction row. *)
Definition add_transaction (s : session) (t : Transaction.t) : session :=
  Session (users s) (symbols s) (transactions s ++ [t]) (alerts s).

(** ** 3. Transaction-level cost basis *)

(** [session.query(Transaction).filter(user_id == .., symbol_id == ..).all()] *)
Definition query_transactions (s : session) (user_id symbol_id : Z)
  : list Transaction.t :=
  filter (λ t, Transaction.user_id t = user_id
               ∧ Transaction.symbol_id t = symbol_id) (transactions s).

(** One iteration of [for t in txs], on the pair
    [(total_cost, total_quantity)]. *)
Definition cost_step (acc : float * float) (t : Transaction.t)
  : float * float :=
  if decide (0 < Transaction.quantity t)
  then (acc.1 + Transaction.quantity t * Transaction.price t,
        acc.2 + Transaction.quantity t)
  else acc.

Definition calculate_average_cost_basis
    (s : session) (user_id symbol_id : Z) : float :=
  let txs := query_transactions s user_id symbol_id in
  let acc := foldl cost_step (0, 0) txs in
  if decide (0 < acc.2) then acc.1 / acc.2 else 0.

(** The spec's words for the same quantity: the acquisitions of a ledger,
    their total cost and their total quantity. *)
Definition acquisitions (txs : list Transaction.t) : list Transaction.t :=
  filter (λ t, 0 < Transaction.quantity t) txs.

Definition cost_of (t : Transaction.t) : float :=
  Transaction.quantity t * Transaction.price t.

Definition qty_price (t : Transaction.t) : float * float :=
  (Transaction.quantity t, Transaction.price t).

(** ** Current holdings *)

(** [query(Symbol.name, ..).join(Transaction, Symbol.id == Transaction.symbol_id)
     .filter(Transaction.user_id == user_id)]: the joined rows. *)
Definition joined_rows (s : session) (user_id : Z)
  : list (Symbol.t * Transaction.t) :=
  filter (λ r, Transaction.user_id r.2 = user_id)
    (sym ← symbols s;
     t ← transactions s;
     if decide (Symbol.id sym = Transaction.symbol_id t)
     then [(sym, t)] else []).

(** [func.sum(Transaction.quantity)] over the group of one name. *)
Definition group_sum (rows : list (Symbol.t * Transaction.t)) (n : string)
  : float :=
  Qcsum ((λ r, Transaction.quantity r.2)
           <$> filter (λ r, Symbol.name r.1 = n) rows).

(** [.group_by(Symbol.name).all()]: one result row per distinct name. *)
Definition grouped_results (rows : list (Symbol.t * Transaction.t))
  : list (string * float) :=
  (λ n, (n, group_sum rows n))
    <$> remove_dups ((λ r, Symbol.name r.1) <$> rows).

(** [{r[0]: r[1] for r in results}]: later rows overwrite earlier ones. *)
Definition dict_of_rows (results : list (string * float))
  : gmap string float :=
  foldl (λ d r, <[r.1 := r.2]> d) ∅ results.

Definition get_current_holdings (s : session) (user_id : Z)
  : gmap string float :=
  dict_of_rows (grouped_results (joined_rows s user_id)).

(** The signed sum of a user's quantities for one symbol id. *)
Definition net_quantity (s : session) (user_id symbol_id : Z) : float :=
  Qcsum (Transaction.quantity <$> query_transactions s user_id symbol_id).

(** ** Python values and exceptions *)

Inductive exn :=
| KeyError | TypeError | AttributeError | ZeroDivisionError
| RequestException | JSONDecodeError | SMTPException.

Inductive result (A : Type) :=
| Ok (a : A)
| Raise (e : exn).
Arguments Ok {A} a.
Arguments Raise {A} e.

#[global] Instance exn_eq_dec : EqDecision exn.
Proof. solve_decision. Defined.
#[global] Instance result_eq_dec `{EqDecision A} : EqDecision (result A).
Proof. solve_decision. Defined.

#[global] Instance result_ret : MRet result := λ A a, Ok a.
#[global] Instance result_bind : MBind result := λ A B f m,
  match m with Ok a => f a | Raise e => Raise e end.

(** [try: body / except: return handler]. *)
Definition try_except {A} (body : result A) (handler : A) : result A :=
  match body with Ok a => Ok a | Raise _ => Ok handler end.

(** What [r.json()] can yield; [JNull] is Python's [None], an object is a
    [dict] kept as its key/value pairs (the first pair of a key is the
    binding). *)
Inductive json :=
| JNull
| JBool (b : bool)
| JNum (x : float)
| JStr (s : string)
| JArr (xs : list json)
| JObj (kvs : list (string * json)).

Fixpoint assoc {A} (k : string) (kvs : list (string * A)) : option A :=
  match kvs with
  | [] => None
  | (k', v) :: rest => if decide (k' = k) then Some v else assoc k rest
  end.

(** [sub in s] on strings. *)
Definition str_contains (sub s : string) : bool :=
  match String.index 0 sub s with Some _ => true | None => false end.

(** [s.endswith(suffix)]. *)
Definition str_endswith (s suffix : string) : bool :=
  bool_decide
    (String.substring (String.length s - String.length suffix)
                      (String.length suffix) s = suffix
     ∧ (String.length suffix ≤ String.length s)%nat).

(** [v[k]] with a string key. *)
Definition getitem (v : json) (k : string) : result json :=
  match v with
  | JObj kvs => match assoc k kvs with Some x => Ok x | None => Raise KeyError end
  | _ => Raise TypeError
  end.

(** [v.get(k)]. *)
Definition dict_get (v : json) (k : string) : result json :=
  match v with
  | JObj kvs => Ok (default JNull (assoc k kvs))
  | _ => Raise AttributeError
  end.

Definition is_str (k : string) (v : json) : bool :=
  match v with JStr s => bool_decide (s = k) | _ => false end.

(** [k in v] with a string [k]: key test on a dict, substring test on a
    string, element test on a list, [TypeError] otherwise. *)
Definition contains (v : json) (k : string) : result bool :=
  match v with
  | JObj kvs => Ok (bool_decide (is_Some (assoc k kvs)))
  | JStr s => Ok (str_contains k s)
  | JArr xs => Ok (existsb (is_str k) xs)
  | _ => Raise TypeError
  end.

(** The numeric reading of a value ([bool] is a subtype of [int]). *)
Definition as_number (v : json) : option float :=
  match v with
  | JNum x => Some x
  | JBool b => Some (if b then 1 else 0)
  | _ => None
  end.

Definition optional_float (v : json) : bool :=
  match v with
  | JNull | JNum _ | JBool _ => true
  | _ => false
  end.

(** [a / b]; that an integer operand beyond the range of a float makes
    Python raise [OverflowError] is not modelled. *)
Definition truediv (a b : json) : result json :=
  match as_number a, as_number b with
  | Some x, Some y =>
      if decide (y = 0) then Raise ZeroDivisionError else Ok (JNum (x / y))
  | _, _ => Raise TypeError
  end.

(** [v * w] for a float [w]; that an integer [v] beyond the range of a
    float makes Python raise [OverflowError] is not modelled. *)
Definition mul_float (v : json) (w : float) : result float :=
  match as_number v with
  | Some x => Ok (x * w)
  | None => Raise TypeError
  end.

(** ** 5. Forex providers *)

Record provider_info := ProviderInfo { url : string; weight : float }.

(** An ordered [dict]: the items in insertion order. *)
Abbreviation provider_config := (list (string * provider_info)).

Definition PROVIDER_CONFIG : provider_config :=
  [ ("EXCHANGERATE_HOST",
     ProviderInfo "https://api.exchangerate.host/latest" 1);
    ("EXCHANGERATE_API",
     ProviderInfo "https://v6.exchangerate-api.com/v6/YOUR_API_KEY/latest/"
                  (qc 8 10));
    ("OPEN_EXCHANGE_RATES",
     ProviderInfo
       "https://openexchangerates.org/api/latest.json?app_id=YOUR_APP_ID"
       (qc 9 10)) ]%string.

Record request := Request {
  req_url : string;
  req_params : list (string * string)
}.

#[global] Instance request_eq_dec : EqDecision request.
Proof. solve_decision. Defined.

Section Forex.

(** [requests.get(url, params=params)] followed by [r.json()]: the
    decoded payload, or whatever either call raised. *)
Variable http : request → result json.

(** The body of the [try] block of [fetch_forex_rate]; leaving the
    [if] chain without a [return] falls to the final [return None]. *)
Definition fetch_body (provider_key url base target : string)
  : result json :=
  if str_contains "EXCHANGERATE_HOST" provider_key then
    data ← http (Request url [("base", base); ("symbols", target)]%string);
    rates ← getitem data "rates";
    getitem rates target
  else if str_contains "EXCHANGERATE_API" provider_key then
    let url := if str_endswith url "/" then url else (url +:+ "/")%string in
    let url := (url +:+ base)%string in
    data ← http (Request url []);
    conversion_rates ← getitem data "conversion_rates";
    dict_get conversion_rates target
  else if str_contains "OPEN_EXCHANGE_RATES" provider_key then
    data ← http (Request url []);
    rates ← getitem data "rates";
    if decide (base = "USD"%string) then dict_get rates target
    else
      base_in ← contains rates base;
      if base_in : bool then
        target_in ← contains rates target;
        if target_in : bool then
          t ← getitem rates target;
          b ← getitem rates base;
          truediv t b
        else Ok JNull
      else Ok JNull
  else Ok JNull.

Definition fetch_forex_rate (cfg : provider_config)
    (provider_key base target : string) : result json :=
  match assoc provider_key cfg with
  | None => Raise KeyError
  | Some config => try_except (fetch_body provider_key (url config) base target) JNull
  end.

(** One iteration of [for provider_key, info in PROVIDER_CONFIG.items()]
    on [(total_weighted_rate, total_weight)]. *)
Definition aggregate_step (cfg : provider_config) (base target : string)
    (acc : float * float) (item : string * provider_info)
  : result (float * float) :=
  let weight := weight item.2 in
  rate ← fetch_forex_rate cfg item.1 base target;
  match rate with
  | JNull => Ok acc
  | _ =>
      weighted ← mul_float rate weight;
      Ok (acc.1 + weighted, acc.2 + weight)
  end.

Fixpoint aggregate_loop (cfg : provider_config) (base target : string)
    (items : provider_config) (acc : float * float)
  : result (float * float) :=
  match items with
  | [] => Ok acc
  | item :: rest =>
      acc' ← aggregate_step cfg base target acc item;
      aggregate_loop cfg base target rest acc'
  end.

Definition get_advanced_forex_rate (cfg : provider_config)
    (base target : string) : result (option float) :=
  acc ← aggregate_loop cfg base target cfg (0, 0);
  if decide (0 < acc.2) then Ok (Some (acc.1 / acc.2)) else Ok None.

(** The quotes of one call, in the spec's words: the [(rate, weight)]
    pairs of the providers whose fetch returned a number. *)
Definition quote_of (cfg : provider_config) (base target : string)
    (item : string * provider_info) : option (float * float) :=
  match fetch_forex_rate cfg item.1 base target with
  | Ok v => (λ r, (r, weight item.2)) <$> as_number v
  | Raise _ => None
  end.

Definition quotes (cfg : provider_config) (base target : string)
  : list (float * float) :=
  omap (quote_of cfg base target) cfg.

(** The annotated return type [Optional[float]] holds of a provider's
    fetch: it returned [None] or a number. *)
Definition typed_fetch (cfg : provider_config) (base target : string)
    (item : string * provider_info) : bool :=
  match fetch_forex_rate cfg item.1 base target with
  | Ok v => optional_float v
  | Raise _ => false
  end.

End Forex.

Definition weighted_mean (qs : list (float * float)) : float :=
  Qcsum ((λ q, q.1 * q.2) <$> qs) / Qcsum (qs.*2).

(** The request a provider issues, read off the three branches. *)
Definition provider_request (provider_key url base target : string)
  : option request :=
  if str_contains "EXCHANGERATE_HOST" provider_key then
    Some (Request url [("base", base); ("symbols", target)]%string)
  else if str_contains "EXCHANGERATE_API" provider_key then
    Some (Request ((if str_endswith url "/" then url else url +:+ "/") +:+ base)%string [])
  else if str_contains "OPEN_EXCHANGE_RATES" provider_key then
    Some (Request url [])
  else None.

(** ** 6. Alert evaluation *)

Inductive direction := Above | Below.

(** One entry of [msg_lines]: the data of the formatted line
    ["{symbol_name} above|below threshold {threshold} (current: {price})"]. *)
Record msg_line := MsgLine {
  line_symbol : string;
  line_direction : direction;
  line_threshold : option float;
  line_price : float
}.

(** The arguments of one call of [send_email_alert]; [body] is the list
    of lines joined by newlines. *)
Record email_call := EmailCall {
  to_email : string;
  subject : string;
  body : list msg_line
}.

#[global] Instance direction_eq_dec : EqDecision direction.
Proof. solve_decision. Defined.
#[global] Instance msg_line_eq_dec : EqDecision msg_line.
Proof. solve_decision. Defined.
#[global] Instance email_call_eq_dec : EqDecision email_call.
Proof. solve_decision. Defined.

(** Truth value of a nullable float column: [None] and [0.0] are falsy. *)
Definition truthy (x : option float) : bool :=
  match x with
  | Some v => bool_decide (v ≠ 0)
  | None => false
  end.

(** [alert.upper_threshold and current_price >= alert.upper_threshold] *)
Definition upper_breached (alert : Alert.t) (current_price : float) : bool :=
  truthy (Alert.upper_threshold alert)
  && match Alert.upper_threshold alert with
     | Some u => bool_decide (u ≤ current_price)
     | None => false
     end.

(** [alert.lower_threshold and current_price <= alert.lower_threshold] *)
Definition lower_breached (alert : Alert.t) (current_price : float) : bool :=
  truthy (Alert.lower_threshold alert)
  && match Alert.lower_threshold alert with
     | Some l => bool_decide (current_price ≤ l)
     | None => false
     end.

(** The two [if] statements of the loop body, on [(triggered, msg_lines)]. *)
Definition evaluate_alert (symbol_name : string) (current_price : float)
    (alert : Alert.t) : bool * list msg_line :=
  let st := (false, []) in
  let st :=
    if upper_breached alert current_price
    then (true,
          st.2 ++ [MsgLine symbol_name Above
                     (Alert.upper_threshold alert) current_price])
    else st in
  let st :=
    if lower_breached alert current_price
    then (true,
          st.2 ++ [MsgLine symbol_name Below
                     (Alert.lower_threshold alert) current_price])
    else st in
  st.

(** [session.query(Symbol).filter_by(name=symbol_name).first()] *)
Definition query_symbol (s : session) (symbol_name : string)
  : option Symbol.t :=
  head (filter (λ sym, Symbol.name sym = symbol_name) (symbols s)).

(** [session.query(Alert).filter(Alert.symbol_id == .., Alert.active == True).all()] *)
Definition query_alerts (s : session) (symbol_id : Z) : list Alert.t :=
  filter (λ a, Alert.symbol_id a = symbol_id ∧ Alert.active a = true)
         (alerts s).

(** The [alert.user] relationship. *)
Definition alert_user (s : session) (alert : Alert.t) : option User.t :=
  head (filter (λ u, User.id u = Alert.user_id alert) (users s)).

Section Alerts.

(** The notification collaborator: delivery succeeds or raises. *)
Variable send_email_alert : email_call → result unit.

(** [for alert in alerts]: the calls of [send_email_alert] made, in
    order, and how the loop ended. *)
Fixpoint alert_loop (s : session) (symbol_name : string)
    (current_price : float) (als : list Alert.t)
  : list email_call * result unit :=
  match als with
  | [] => ([], Ok ())
  | alert :: rest =>
      let '(triggered, msg_lines) :=
        evaluate_alert symbol_name current_price alert in
      if triggered then
        match alert_user s alert with
        | None => ([], Raise AttributeError)
        | Some user =>
            let call :=
              EmailCall (User.email user)
                        ("Price Alert for " +:+ symbol_name) msg_lines in
            match send_email_alert call with
            | Ok _ =>
                let '(calls, r) :=
                  alert_loop s symbol_name current_price rest in
                (call :: calls, r)
            | Raise e => ([call], Raise e)
            end
        end
      else alert_loop s symbol_name current_price rest
  end.

Definition check_and_trigger_alerts (s : session) (symbol_name : string)
    (current_price : float) : list email_call * result unit :=
  match query_symbol s symbol_name with
  | None => ([], Ok ())
  | Some symbol_obj =>
      alert_loop s symbol_name current_price
                 (query_alerts s (Symbol.id symbol_obj))
  end.

End Alerts.

(** ** Definitions used by the statements *)

(** *** Ledger *)


(** The transactions joined to one symbol row. *)
Definition join_symbol (txs : list Transaction.t) (sym : Symbol.t)
  : list (Symbol.t * Transaction.t) :=
  t ← txs;
  if decide (Symbol.id sym = Transaction.symbol_id t) then [(sym, t)] else [].

(** *** Rows and ledgers of the scenarios *)

Definition demo_user : User.t := User.mk 1 "demo" "demo@example.com".
Definition AAPL : Symbol.t := Symbol.mk 1 "AAPL" "stock".
Definition bitcoin : Symbol.t := Symbol.mk 2 "bitcoin" "crypto".

Definition buy_10_at_120 : Transaction.t :=
  Transaction.mk 1 1 1 (qc 10 1) (qc 120 1) 0.
Definition sell_4_at_150 : Transaction.t :=
  Transaction.mk 2 1 1 (qc (-4) 1) (qc 150 1) 1.
Definition sell_6_at_90 : Transaction.t :=
  Transaction.mk 3 1 1 (qc (-6) 1) (qc 90 1) 2.

(** Scenario 1 of the spec: [buy 10 @ 120, sell 4 @ 150]. *)
Definition ledger_scenario : session :=
  Session [demo_user] [AAPL; bitcoin] [buy_10_at_120; sell_4_at_150] [].

(** The position sold out completely: net quantity 0. *)
Definition ledger_flat : session :=
  add_transaction ledger_scenario sell_6_at_90.




(** The ledger of scenario 1 in a table shared with a second user, who
    bought and sold AAPL at other prices, and with a bitcoin purchase of
    the first user. *)
Definition second_user : User.t := User.mk 2 "other" "other@example.com".

Definition shared_ledger : session :=
  Session [demo_user; second_user] [AAPL; bitcoin]
          [ buy_10_at_120;
            Transaction.mk 2 2 1 (qc 5 1) (qc 200 1) 1;
            sell_4_at_150;
            Transaction.mk 4 1 2 (qc 2 1) (qc 50 1) 3;
            Transaction.mk 5 2 1 (qc (-5) 1) (qc 210 1) 4 ] [].

(** *** Rates *)



(** Providers A and B with weights 1.0 and 0.5, and a third one. *)
Definition scenario_config : provider_config :=
  [ ("EXCHANGERATE_HOST",
     ProviderInfo "https://api.exchangerate.host/latest" 1);
    ("EXCHANGERATE_API",
     ProviderInfo "https://v6.exchangerate-api.com/v6/YOUR_API_KEY/latest/"
                  (qc 1 2));
    ("OPEN_EXCHANGE_RATES",
     ProviderInfo
       "https://openexchangerates.org/api/latest.json?app_id=YOUR_APP_ID"
       (qc 9 10)) ]%string.

(** A quotes 1.10, B quotes 1.12, every other request fails in transport. *)
Definition scenario_http (req : request) : result json :=
  if decide (req_url req = "https://api.exchangerate.host/latest"%string)
  then Ok (JObj [("rates", JObj [("EUR", JNum (qc 110 100))])]%string)
  else if decide (req_url req
                  = "https://v6.exchangerate-api.com/v6/YOUR_API_KEY/latest/USD"%string)
  then Ok (JObj [("conversion_rates",
                  JObj [("EUR", JNum (qc 112 100))])]%string)
  else Raise RequestException.

(** A quotes 1.10 and B answers with its rate as a string, ["1.12"];
    every other request fails in transport. *)
Definition string_rate_http (req : request) : result json :=
  if decide (req_url req = "https://api.exchangerate.host/latest"%string)
  then Ok (JObj [("rates", JObj [("EUR", JNum (qc 110 100))])]%string)
  else if decide (req_url req
                  = "https://v6.exchangerate-api.com/v6/YOUR_API_KEY/latest/USD"%string)
  then Ok (JObj [("conversion_rates", JObj [("EUR", JStr "1.12")])]%string)
  else Raise RequestException.

(** The third provider answers with a payload whose rate for EUR is the
    text ["N/A"]; [host] is what the first provider's request yields, and
    every other request fails in transport. *)
Definition malformed_rate_http (host : result json) (req : request)
  : result json :=
  if decide (req = Request "https://openexchangerates.org/api/latest.json?app_id=YOUR_APP_ID" [])
  then Ok (JObj [("rates", JObj [("EUR", JStr "N/A")])]%string)
  else if decide (req_url req = "https://api.exchangerate.host/latest"%string)
  then host
  else Raise RequestException.

(** The key of the rate table in a provider's payload, read off the
    three branches. *)
Definition rate_table_key (provider_key : string) : string :=
  if str_contains "EXCHANGERATE_HOST" provider_key then "rates"
  else if str_contains "EXCHANGERATE_API" provider_key then "conversion_rates"
  else "rates".

(** The one request of OPEN_EXCHANGE_RATES under [PROVIDER_CONFIG]. *)
Definition oxr_request : request :=
  Request "https://openexchangerates.org/api/latest.json?app_id=YOUR_APP_ID" [].

(** A table in EUR and GBP per USD; the pair EUR to GBP is derived. *)
Definition cross_http (req : request) : result json :=
  if decide (req = oxr_request)
  then Ok (JObj [("rates", JObj [("EUR", JNum (qc 9 10));
                                 ("GBP", JNum (qc 8 10))])]%string)
  else Raise RequestException.

(** *** Alert rules of the scenarios *)

(** One active rule on AAPL with both thresholds [0.0]. *)
Definition zero_threshold_session : session :=
  Session [demo_user] [AAPL] []
          [Alert.mk 1 1 1 (Some 0) (Some 0) true].

(** One active rule on AAPL with upper 0.0 and lower 10.0. *)
Definition crossed_zero_session : session :=
  Session [demo_user] [AAPL] []
          [Alert.mk 1 1 1 (Some 0) (Some (qc 10 1)) true].

(** ** Further functions of the source *)

(** [fetch_crypto_price]: the CoinGecko simple-price request, with the
    bare [except] returning [None]. *)
Definition fetch_crypto_price (http : request → result json)
    (coin_id : string) : result json :=
  let url := "https://api.coingecko.com/api/v3/simple/price"%string in
  let params := [("ids", coin_id); ("vs_currencies", "usd")]%string in
  try_except
    (data ← http (Request url params);
     coin ← getitem data coin_id;
     getitem coin "usd")
    JNull.

(** The call of [send_email_alert] a triggered rule leads to, when the
    rule's user row exists. *)
Definition alert_call (s : session) (symbol_name : string)
    (current_price : float) (alert : Alert.t) : option email_call :=
  (λ user, EmailCall (User.email user) ("Price Alert for " +:+ symbol_name)
                     (evaluate_alert symbol_name current_price alert).2)
    <$> alert_user s alert.


(** Three active rules on AAPL with upper thresholds 200, 150 and 300;
    the third belongs to a user id with no row. *)
Definition three_rule_session : session :=
  Session [demo_user] [AAPL] []
          [Alert.mk 1 1 1 (Some (qc 200 1)) (Some (qc 100 1)) true;
           Alert.mk 2 1 1 (Some (qc 150 1)) None true;
           Alert.mk 3 99 1 (Some (qc 300 1)) None true].

(** ** 7. Main example flow *)

(** What can leave [main]: the [IntegrityError] of a violated unique
    constraint at commit, the [ValueError] of a format specification,
    or an exception of the functions above. *)
Inductive main_exn :=
| IntegrityError
| ValueError
| Uncaught (e : exn).

(** The [print] calls, with the value each inserts in its text. *)
Inductive output :=
| PrintValue (label : string) (value : float)
| PrintHoldings (holdings : gmap string float)
| PrintText (text : string).

(** The id SQLite gives a new row: 1 in an empty table, otherwise one
    more than the largest id in use. *)
Definition next_id (ids : list Z) : Z :=
  match ids with
  | [] => 1
  | i :: rest => 1 + foldl Z.max i rest
  end%Z.

(** [session.add(User(...))] followed by the flush that assigns the id. *)
Definition new_user (s : session) (username email : string) : User.t :=
  User.mk (next_id (User.id <$> users s)) username email.

Definition add_user (s : session) (username email : string) : session :=
  Session (users s ++ [new_user s username email])
          (symbols s) (transactions s) (alerts s).

Definition add_symbol (s : session) (name symbol_type : string) : session :=
  Session (users s)
          (symbols s
             ++ [Symbol.mk (next_id (Symbol.id <$> symbols s)) name symbol_type])
          (transactions s) (alerts s).

(** [session.add(Transaction(...))] with the id and the default
    timestamp filled in at the insert. *)
Definition insert_transaction (s : session) (user_id symbol_id : Z)
    (quantity price : float) (timestamp : Z) : session :=
  add_transaction s
    (Transaction.mk (next_id (Transaction.id <$> transactions s))
                    user_id symbol_id quantity price timestamp).

Definition add_alert (s : session) (user_id symbol_id : Z)
    (upper lower : option float) (active : bool) : session :=
  Session (users s) (symbols s) (transactions s)
          (alerts s
             ++ [Alert.mk (next_id (Alert.id <$> alerts s))
                          user_id symbol_id upper lower active]).

(** [session.query(User).filter_by(username=..).first()] *)
Definition query_user (s : session) (username : string) : option User.t :=
  head (filter (λ u, User.username u = username) (users s)).

(** Step 3 of [main]: one iteration of the upsert loop. *)
Definition upsert_symbol (s : session) (data : string * string) : session :=
  match query_symbol s data.1 with
  | Some _ => s
  | None => add_symbol s data.1 data.2
  end.

Definition symbols_data : list (string * string) :=
  [("AAPL", "stock"); ("bitcoin", "crypto"); ("USD_EUR", "forex")]%string.

(** Truth value of a decoded JSON value. *)
Definition json_truthy (v : json) : bool :=
  match v with
  | JNull => false
  | JBool b => b
  | JNum x => bool_decide (x ≠ 0)
  | JStr s => bool_decide (s ≠ ""%string)
  | JArr xs => bool_decide (xs ≠ [])
  | JObj kvs => bool_decide (kvs ≠ [])
  end.

Record main_state := MainState {
  db : session;
  printed : list output;
  sent : list email_call
}.

(** Computations of [main]: they read and change the database, print,
    send emails, and may stop with an exception. *)
Definition M (A : Type) : Type := main_state → main_state * (main_exn + A).

Definition retM {A} (a : A) : M A := λ st, (st, inr a).

Definition bindM {A B} (m : M A) (k : A → M B) : M B := λ st,
  match m st with
  | (st', inr a) => k a st'
  | (st', inl e) => (st', inl e)
  end.

Notation "x <~ m ;; k" := (bindM m (λ x, k))
  (at level 100, m at next level, right associativity).
Notation "m ;;; k" := (bindM m (λ _, k))
  (at level 100, right associativity).

Definition raiseM {A} (e : main_exn) : M A := λ st, (st, inl e).

Definition get_session : M session := λ st, (st, inr (db st)).

Definition put_session (s : session) : M unit := λ st,
  (MainState s (printed st) (sent st), inr ()).

Definition printM (o : output) : M unit := λ st,
  (MainState (db st) (printed st ++ [o]) (sent st), inr ()).

(** [.id] of the result of a [.first()]. *)
Definition symbol_id_of (o : option Symbol.t) : M Z :=
  match o with
  | Some symbol_obj => retM (Symbol.id symbol_obj)
  | None => raiseM (Uncaught AttributeError)
  end.

(** The value a [:.2f] or [:.4f] format specification accepts. *)
Definition format_float (v : json) : M float :=
  match v with
  | JNum x => retM x
  | JBool b => retM (if b then 1 else 0)
  | JStr _ => raiseM ValueError
  | _ => raiseM (Uncaught TypeError)
  end.

Section Main.

(** The readings of [datetime.utcnow], in the order they are taken. *)
Variable utcnow : nat → Z.

(** [fetch_stock_price]: the yfinance download is a collaborator; the
    function catches its exceptions and returns a price or [None]. *)
Variable fetch_stock_price : string → option float.

Variable http : request → result json.
Variable send_email_alert : email_call → result unit.

(** [check_and_trigger_alerts(session, symbol_name, price)] inside [main]. *)
Definition run_alerts (symbol_name : string) (price : float) : M unit :=
  λ st,
    let '(calls, r) :=
      check_and_trigger_alerts send_email_alert (db st) symbol_name price in
    let st' := MainState (db st) (printed st) (sent st ++ calls) in
    match r with
    | Ok _ => (st', inr ())
    | Raise e => (st', inl (Uncaught e))
    end.

(** Step 2: the demo user, created when no user is named "demo"; the
    unique constraint on [email] is checked at the commit. *)
Definition demo_user_step : M User.t :=
  s <~ get_session;;
  match query_user s "demo" with
  | Some user => retM user
  | None =>
      if decide (Exists (λ u, User.email u = "demo@example.com"%string)
                        (users s))
      then raiseM IntegrityError
      else
        put_session (add_user s "demo" "demo@example.com");;;
        retM (new_user s "demo" "demo@example.com")
  end.

(** Step 3: the three symbols. *)
Definition symbols_step : M unit :=
  s <~ get_session;;
  put_session (foldl upsert_symbol s symbols_data).

(** Step 4: the two demo buys, when the user has no transaction. *)
Definition transactions_step (user : User.t) (aapl btc : option Symbol.t)
  : M unit :=
  s <~ get_session;;
  match head (filter (λ t, Transaction.user_id t = User.id user)
                     (transactions s)) with
  | Some _ => retM ()
  | None =>
      aapl_id <~ symbol_id_of aapl;;
      btc_id <~ symbol_id_of btc;;
      let s1 := insert_transaction s (User.id user) aapl_id
                                   (qc 10 1) (qc 120 1) (utcnow 0) in
      let s2 := insert_transaction s1 (User.id user) btc_id
                                   (qc 2 100) (qc 30000 1) (utcnow 1) in
      put_session s2
  end.

(** Step 5: one rule per symbol, when the user has none for it. *)
Definition alert_step (user : User.t) (symbol_obj : option Symbol.t)
    (upper lower : float) : M unit :=
  symbol_id <~ symbol_id_of symbol_obj;;
  s <~ get_session;;
  match head (filter (λ a, Alert.user_id a = User.id user
                           ∧ Alert.symbol_id a = symbol_id) (alerts s)) with
  | Some _ => retM ()
  | None =>
      put_session (add_alert s (User.id user) symbol_id
                             (Some upper) (Some lower) true)
  end.

(** Steps 2 to 5: what [main] writes to the database. *)
Definition seed : M (User.t * option Symbol.t) :=
  user <~ demo_user_step;;
  symbols_step;;;
  s <~ get_session;;
  let aapl := query_symbol s "AAPL" in
  let btc := query_symbol s "bitcoin" in
  transactions_step user aapl btc;;;
  alert_step user aapl (qc 200 1) (qc 100 1);;;
  alert_step user btc (qc 40000 1) (qc 20000 1);;;
  retM (user, aapl).

(** Step 6: fetch each price and, when it is truthy, print it and check
    the alerts of its symbol. *)
Definition prices_step : M unit :=
  match fetch_stock_price "AAPL" with
  | Some aapl_price =>
      if decide (aapl_price ≠ 0)
      then printM (PrintValue "AAPL price: " aapl_price);;;
           run_alerts "AAPL" aapl_price
      else retM ()
  | None => retM ()
  end;;;
  match fetch_crypto_price http "bitcoin" with
  | Ok btc_price =>
      if json_truthy btc_price
      then shown <~ format_float btc_price;;
           printM (PrintValue "Bitcoin price: " shown);;;
           run_alerts "bitcoin" shown
      else retM ()
  | Raise e => raiseM (Uncaught e)
  end;;;
  match get_advanced_forex_rate http PROVIDER_CONFIG "USD" "EUR" with
  | Ok (Some usd_eur_rate) =>
      if decide (usd_eur_rate ≠ 0)
      then printM (PrintValue "USD_EUR average rate: " usd_eur_rate);;;
           run_alerts "USD_EUR" usd_eur_rate
      else retM ()
  | Ok None => retM ()
  | Raise e => raiseM (Uncaught e)
  end.

Definition main : M unit :=
  seeded <~ seed;;
  let '(user, aapl) := seeded in
  prices_step;;;
  s <~ get_session;;
  aapl_id <~ symbol_id_of aapl;;
  printM (PrintValue "AAPL average cost basis: $"
            (calculate_average_cost_basis s (User.id user) aapl_id));;;
  printM (PrintHoldings (get_current_holdings s (User.id user)));;;
  printM (PrintText "Done.").

End Main.

(** ** The cost-basis table of [dashboard.py] *)

(** [s.split(sep)] for a one-character separator. *)
Fixpoint split_on (sep : Ascii.ascii) (s : string) : list string :=
  match s with
  | EmptyString => [EmptyString]
  | String c rest =>
      if decide (c = sep) then EmptyString :: split_on sep rest
      else match split_on sep rest with
           | part :: parts => String c part :: parts
           | [] => [String c EmptyString]
           end
  end.

(** The separator ["_"] of a forex pair's name. *)
Definition underscore : Ascii.ascii := Ascii.ascii_of_nat 95.

(** One dict appended to [rows]. *)
Record row := Row {
  row_symbol : string;
  row_quantity : float;
  row_avg_cost : float;
  row_current_price : float;
  row_market_value : float
}.

(** [holdings.items()]: a dict keeps insertion order, and the query
    results it is built from have distinct names. The order of the
    result rows of a [GROUP BY] is the database's choice (SQLite returns
    them sorted by name); the groups are taken here in the order of
    their first row, and no statement below depends on that order. *)
Definition holdings_items (s : session) (user_id : Z)
  : list (string * float) :=
  grouped_results (joined_rows s user_id).

Section Dashboard.

(** Python's [round(x, ndigits)]. *)
Variable round : float → Z → float.

Variable fetch_stock_price : string → option float.
Variable http : request → result json.

(** The [if]/[elif] chain on [symbol_obj.symbol_type]; [current_price]
    stays [None] for any other type. *)
Definition current_price_of (symbol_obj : Symbol.t) (sym_name : string)
  : main_exn + json :=
  if decide (Symbol.symbol_type symbol_obj = "stock"%string) then
    inr (from_option JNum JNull (fetch_stock_price sym_name))
  else if decide (Symbol.symbol_type symbol_obj = "crypto"%string) then
    match fetch_crypto_price http sym_name with
    | Ok v => inr v
    | Raise e => inl (Uncaught e)
    end
  else if decide (Symbol.symbol_type symbol_obj = "forex"%string) then
    match split_on underscore sym_name with
    | [base; target] =>
        match get_advanced_forex_rate http PROVIDER_CONFIG base target with
        | Ok rate => inr (from_option JNum JNull rate)
        | Raise e => inl (Uncaught e)
        end
    | _ => inl ValueError
    end
  else inr JNull.

(** The body of [for sym_name, quantity in holdings.items()]: the row
    appended for one holding, if any. *)
Definition row_of (s : session) (user_id : Z) (item : string * float)
  : main_exn + option row :=
  let '(sym_name, quantity) := item in
  if decide (quantity = 0) then inr None
  else
    match query_symbol s sym_name with
    | None => inr None
    | Some symbol_obj =>
        let avg_cost :=
          calculate_average_cost_basis s user_id (Symbol.id symbol_obj) in
        match current_price_of symbol_obj sym_name with
        | inl e => inl e
        | inr current_price =>
            if json_truthy current_price then
              match as_number current_price with
              | Some p =>
                  inr (Some (Row sym_name quantity (round avg_cost 2)
                                 (round p 4) (round (quantity * p) 2)))
              | None => inl (Uncaught TypeError)
              end
            else inr None
        end
    end.

Fixpoint rows_loop (s : session) (user_id : Z)
    (items : list (string * float)) : main_exn + list row :=
  match items with
  | [] => inr []
  | item :: rest =>
      match row_of s user_id item with
      | inl e => inl e
      | inr r =>
          match rows_loop s user_id rest with
          | inl e => inl e
          | inr rows => inr (option_list r ++ rows)
          end
      end
  end.

Definition dashboard_rows (s : session) (user_id : Z)
  : main_exn + list row :=
  rows_loop s user_id (holdings_items s user_id).

End Dashboard.

(** The primary keys and the [unique=True] columns of the schema. *)
Record consistent (s : session) : Prop := Consistent {
  user_ids_unique : NoDup (User.id <$> users s);
  usernames_unique : NoDup (User.username <$> users s);
  emails_unique : NoDup (User.email <$> users s);
  symbol_ids_unique : NoDup (Symbol.id <$> symbols s);
  symbol_names_unique : NoDup (Symbol.name <$> symbols s);
  transaction_ids_unique : NoDup (Transaction.id <$> transactions s);
  alert_ids_unique : NoDup (Alert.id <$> alerts s)
}.

(** Every table of [s'] starts with the rows of [s], unchanged. *)
Definition extends (s s' : session) : Prop :=
  users s `prefix_of` users s'
  ∧ symbols s `prefix_of` symbols s'
  ∧ transactions s `prefix_of` transactions s'
  ∧ alerts s `prefix_of` alerts s'.

(** The rows [main] looks for before it adds its own. *)
Definition seeded (s : session) (user : User.t) (aapl btc : Symbol.t)
  : Prop :=
  query_user s "demo" = Some user
  ∧ query_symbol s "AAPL" = Some aapl
  ∧ query_symbol s "bitcoin" = Some btc
  ∧ is_Some (query_symbol s "USD_EUR")
  ∧ is_Some (head (filter (λ t, Transaction.user_id t = User.id user)
                          (transactions s)))
  ∧ is_Some (head (filter (λ a, Alert.user_id a = User.id user
                                ∧ Alert.symbol_id a = Symbol.id aapl)
                          (alerts s)))
  ∧ is_Some (head (filter (λ a, Alert.user_id a = User.id user
                                ∧ Alert.symbol_id a = Symbol.id btc)
                          (alerts s))).

(** A computation that leaves the database as it found it. *)
Definition keeps_db {A} (m : M A) : Prop := ∀ st, db (m st).1 = db st.

(** The database before the first run. *)
Definition empty_db : session := Session [] [] [] [].

(** ** The arithmetic loops in binary64 *)

(** The loops of [calculate_average_cost_basis] and of
    [get_advanced_forex_rate] once more, with [float] the binary64
    numbers of the kernel: [+], [*] and [/] round to the nearest number,
    ties to even, as the operations of a Python [float] do, and
    [0 <? x] is [x > 0]. The tables and the fetches are taken at their
    declared types: a [Float] column, and [Optional[float]]. *)

Module Binary64.
Import Floats.
Local Open Scope float_scope.

(** The [Transaction] rows with [quantity] and [price] as binary64
    numbers. *)
Module Transaction.
Record t := mk {
  id : Z;
  user_id : Z;
  symbol_id : Z;
  quantity : float;
  price : float;
  timestamp : Z
}.
End Transaction.

(** The query of [calculate_average_cost_basis] over the rows of the
    transactions table. *)
Definition query_transactions (transactions : list Transaction.t)
    (user_id symbol_id : Z) : list Transaction.t :=
  filter (λ t, Transaction.user_id t = user_id
               ∧ Transaction.symbol_id t = symbol_id) transactions.

(** One iteration of [for t in txs]: [t.quantity > 0] is false of a NaN
    as it is of a sale. *)
Definition cost_step (acc : float * float) (t : Transaction.t)
  : float * float :=
  if 0 <? Transaction.quantity t
  then (acc.1 + Transaction.quantity t * Transaction.price t,
        acc.2 + Transaction.quantity t)
  else acc.

Definition calculate_average_cost_basis (transactions : list Transaction.t)
    (user_id symbol_id : Z) : float :=
  let txs := query_transactions transactions user_id symbol_id in
  let acc := foldl cost_step (0, 0) txs in
  if 0 <? acc.2 then acc.1 / acc.2 else 0.

(** The weights of [PROVIDER_CONFIG]; the urls take no part in the
    arithmetic. *)
Definition PROVIDER_CONFIG : list (string * float) :=
  [ ("EXCHANGERATE_HOST", 1.0);
    ("EXCHANGERATE_API", 0.8);
    ("OPEN_EXCHANGE_RATES", 0.9) ]%string.

(** One iteration of the loop of [get_advanced_forex_rate], for a call
    in which every fetch returns [None] or a float: [fetch_forex_rate]
    gives what the fetch of each provider key returns. *)
Definition aggregate_step (fetch_forex_rate : string → option float)
    (acc : float * float) (item : string * float) : float * float :=
  let weight := item.2 in
  match fetch_forex_rate item.1 with
  | Some rate => (acc.1 + rate * weight, acc.2 + weight)
  | None => acc
  end.

Definition get_advanced_forex_rate (fetch_forex_rate : string → option float)
    (cfg : list (string * float)) : option float :=
  let acc := foldl (aggregate_step fetch_forex_rate) (0, 0) cfg in
  if 0 <? acc.2 then Some (acc.1 / acc.2) else None.

(** *** The number a binary64 value stands for *)

Definition pow2 (e : Z) : Qc :=
  match e with
  | Z0 => 1%Qc
  | Zpos p => Q2Qc (Zpos (2 ^ p) # 1)
  | Zneg p => Q2Qc (1 # 2 ^ p)
  end.

(** A zero stands for 0, a finite number with sign [s], mantissa [m]
    and exponent [e] for [(-1)^s * m * 2^e]; an infinity and a NaN stand
    for no number. *)
Definition value (x : float) : option Qc :=
  match Prim2SF x with
  | S754_zero _ => Some 0%Qc
  | S754_finite s m e =>
      Some ((if s then - Q2Qc (Zpos m # 1) else Q2Qc (Zpos m # 1)) * pow2 e)%Qc
  | _ => None
  end.









(** The [(rate, weight)] pairs of the providers that returned a rate. *)
Definition quotes (fetch_forex_rate : string → option float)
    (cfg : list (string * float)) : list (float * float) :=
  omap (λ item, (λ rate, (rate, item.2)) <$> fetch_forex_rate item.1) cfg.

(** The acquisitions of a ledger and the pair a row contributes. *)
Definition qty_price (t : Transaction.t) : float * float :=
  (Transaction.quantity t, Transaction.price t).

Definition acquisitions (txs : list Transaction.t) : list Transaction.t :=
  filter (λ t, (0 <? Transaction.quantity t) = true) txs.



(** [buy 10 @ 120, sell 4 @ 150, buy 5 @ 90], the same ledger with the
    sale recorded first, and with the two purchases exchanged. *)
Definition buy_10_at_120 : Transaction.t := Transaction.mk 1 1 1 10 120 0.
Definition sell_4_at_150 : Transaction.t := Transaction.mk 2 1 1 (-4) 150 1.



(** Weights 1.0 and 0.5 for the first two providers, which quote 1.0 and
    1.75; the third provider returns [None]. *)
Definition scenario_config : list (string * float) :=
  [ ("EXCHANGERATE_HOST", 1.0);
    ("EXCHANGERATE_API", 0.5);
    ("OPEN_EXCHANGE_RATES", 0.9) ]%string.


End Binary64.




(** * Properties *)

(** ** Rational sums *)

Lemma Qcsum_cons x xs : Qcsum (x :: xs) = x + Qcsum xs.
Proof. done. Qed.

Lemma Qcsum_app xs ys : Qcsum (xs ++ ys) = Qcsum xs + Qcsum ys.
Proof.
  induction xs as [|x xs IH]; simpl.
  - by rewrite Qcplus_0_l.
  - by rewrite IH, Qcplus_assoc.
Qed.

#[global] Instance Qcsum_perm : Proper ((≡ₚ) ==> (=)) Qcsum.
Proof.
  intros xs ys Hp. induction Hp as [|x xs ys _ IH|x y xs|xs ys zs _ IH1 _ IH2];
    simpl; [done| by rewrite IH | ring | congruence].
Qed.

Lemma Qcsum_pos xs : xs ≠ [] → Forall (λ x, 0 < x) xs → 0 < Qcsum xs.
Proof.
  intros Hne Hall. destruct Hall as [|x xs Hx Hxs]; [done|]. clear Hne.
  simpl. apply Qcplus_pos_nonneg; [done|].
  induction Hxs as [|y ys Hy _ IH]; simpl; [done|].
  apply Qcplus_nonneg_nonneg; [by apply Qclt_le_weak | done].
Qed.

(** ** Ledger *)

(** The loop of [calculate_average_cost_basis] accumulates the two sums
    over the acquisitions. *)
Lemma foldl_cost_step txs acc :
  foldl cost_step acc txs
  = (acc.1 + Qcsum (cost_of <$> acquisitions txs),
     acc.2 + Qcsum (Transaction.quantity <$> acquisitions txs)).
Proof.
  revert acc. induction txs as [|t txs IH]; intros [c q]; simpl.
  - by rewrite !Qcplus_0_r.
  - rewrite IH. unfold cost_step, acquisitions. rewrite filter_cons.
    destruct (decide (0 < Transaction.quantity t)); csimpl; [|done].
    unfold cost_of. f_equal; ring.
Qed.

Lemma acquisitions_total_pos txs :
  acquisitions txs ≠ [] →
  0 < Qcsum (Transaction.quantity <$> acquisitions txs).
Proof.
  intros Hne. apply Qcsum_pos.
  - by destruct (acquisitions txs).
  - apply Forall_fmap, Forall_forall. intros t Ht.
    by apply list_elem_of_filter in Ht as [? _].
Qed.

Lemma average_cost_basis_eq s user_id symbol_id :
  let acq := acquisitions (query_transactions s user_id symbol_id) in
  calculate_average_cost_basis s user_id symbol_id
  = if decide (acq = []) then 0
    else Qcsum (cost_of <$> acq) / Qcsum (Transaction.quantity <$> acq).
Proof.
  intros acq. unfold calculate_average_cost_basis.
  rewrite foldl_cost_step. simpl. fold acq. rewrite !Qcplus_0_l.
  destruct (decide (acq = [])) as [Hnil|Hne].
  - rewrite Hnil. simpl. by destruct (decide (0 < 0)).
  - destruct (decide _) as [|Hn]; [done|].
    exfalso. by apply Hn, acquisitions_total_pos.
Qed.




Lemma query_transactions_add s t user_id symbol_id :
  query_transactions (add_transaction s t) user_id symbol_id
  = query_transactions s user_id symbol_id
    ++ (if decide (Transaction.user_id t = user_id
                   ∧ Transaction.symbol_id t = symbol_id)
        then [t] else []).
Proof.
  unfold query_transactions, add_transaction. simpl.
  rewrite filter_app, filter_cons, filter_nil. done.
Qed.

(** ** Holdings *)

Lemma dict_of_rows_lookup (f : string → float) ks (d : gmap string float) n :
  foldl (λ d r, <[r.1 := r.2]> d) d ((λ k, (k, f k)) <$> ks) !! n
  = if decide (n ∈ ks) then Some (f n) else d !! n.
Proof.
  revert d. induction ks as [|k ks IH]; intros d; simpl.
  - done.
  - rewrite IH. destruct (decide (n ∈ ks)) as [Hin|Hnin].
    + rewrite decide_True; [done | by right].
    + destruct (decide (k = n)) as [->|Hne].
      * rewrite lookup_insert_eq, decide_True; [done | by left].
      * rewrite lookup_insert_ne by done.
        rewrite decide_False; [done|]. by intros [?|?]%elem_of_cons.
Qed.

Lemma get_current_holdings_lookup s user_id n :
  get_current_holdings s user_id !! n
  = if decide (n ∈ (λ r, Symbol.name r.1) <$> joined_rows s user_id)
    then Some (group_sum (joined_rows s user_id) n)
    else None.
Proof.
  unfold get_current_holdings, dict_of_rows, grouped_results.
  rewrite (dict_of_rows_lookup (group_sum (joined_rows s user_id))).
  rewrite lookup_empty.
  destruct (decide (n ∈ remove_dups _)) as [Hin|Hnin];
    rewrite elem_of_remove_dups in *;
    [by rewrite decide_True | by rewrite decide_False].
Qed.

Lemma join_symbol_group txs user_id n sym :
  fmap (λ r, Transaction.quantity r.2)
      (filter (λ r, Symbol.name r.1 = n)
         (filter (λ r, Transaction.user_id r.2 = user_id)
                 (join_symbol txs sym)))
  = if decide (Symbol.name sym = n)
    then fmap Transaction.quantity
           (filter (λ t, Transaction.user_id t = user_id
                         ∧ Transaction.symbol_id t = Symbol.id sym) txs)
    else [].
Proof.
  unfold join_symbol. induction txs as [|t txs IH].
  - by destruct (decide _).
  - rewrite bind_cons, !filter_app, fmap_app, IH. clear IH.
    rewrite (filter_cons _ t).
    destruct (decide (Symbol.id sym = Transaction.symbol_id t)) as [Hid|Hid].
    + rewrite filter_cons, filter_nil. simpl.
      destruct (decide (Transaction.user_id t = user_id)) as [Hu|Hu].
      * rewrite filter_cons, filter_nil. simpl.
        destruct (decide (_ ∧ _)) as [_|[]]; [|done].
        by destruct (decide (Symbol.name sym = n)).
      * rewrite filter_nil.
        destruct (decide (_ ∧ _)) as [[? _]|_]; [done|].
        by destruct (decide (Symbol.name sym = n)).
    + rewrite !filter_nil.
      destruct (decide (_ ∧ _)) as [[_ ?]|_]; [done|].
      by destruct (decide (Symbol.name sym = n)).
Qed.

Lemma joined_rows_group s user_id sym :
  NoDup (Symbol.name <$> symbols s) →
  sym ∈ symbols s →
  group_sum (joined_rows s user_id) (Symbol.name sym)
  = net_quantity s user_id (Symbol.id sym).
Proof.
  unfold group_sum, joined_rows, net_quantity, query_transactions.
  change (λ sym0, t ← transactions s;
            if decide (Symbol.id sym0 = Transaction.symbol_id t)
            then [(sym0, t)] else [])
    with (join_symbol (transactions s)).
  generalize (transactions s) as txs. intros txs.
  induction (symbols s) as [|s0 syms IH]; intros Hnd Hin.
  - by apply elem_of_nil in Hin.
  - rewrite fmap_cons in Hnd. apply NoDup_cons in Hnd as [Hfresh Hnd].
    rewrite bind_cons, !filter_app, fmap_app, Qcsum_app, join_symbol_group.
    apply elem_of_cons in Hin as [->|Hin].
    + rewrite decide_True by done.
      assert (fmap (λ r : Symbol.t * Transaction.t, Transaction.quantity r.2)
                (filter (λ r, Symbol.name r.1 = Symbol.name s0)
                   (filter (λ r, Transaction.user_id r.2 = user_id)
                      (syms ≫= join_symbol txs))) = []) as ->.
      { clear IH Hnd. induction syms as [|s1 syms IH]; [done|].
        rewrite bind_cons, !filter_app, fmap_app, join_symbol_group.
        rewrite decide_False.
        - apply IH. intros ?. apply Hfresh. rewrite fmap_cons. by right.
        - intros Heq. apply Hfresh. rewrite fmap_cons, Heq. by left. }
      simpl. by rewrite Qcplus_0_r.
    + rewrite decide_False.
      * simpl. rewrite Qcplus_0_l. by apply IH.
      * intros Heq. apply Hfresh. rewrite Heq.
        by apply list_elem_of_fmap_2.
Qed.

Lemma joined_rows_elem s user_id sym t :
  sym ∈ symbols s → t ∈ transactions s →
  Transaction.user_id t = user_id →
  Transaction.symbol_id t = Symbol.id sym →
  (sym, t) ∈ joined_rows s user_id.
Proof.
  intros Hs Ht Hu Hid. unfold joined_rows.
  apply list_elem_of_filter. split; [done|].
  apply list_elem_of_bind. exists sym. split; [|done].
  apply list_elem_of_bind. exists t. split; [|done].
  rewrite decide_True by done. by left.
Qed.

(** A symbol the user has transacted is a key, bound to the signed sum
    of the user's quantities for it. *)
Lemma holdings_lookup_symbol s user_id sym t :
  NoDup (Symbol.name <$> symbols s) →
  sym ∈ symbols s → t ∈ transactions s →
  Transaction.user_id t = user_id →
  Transaction.symbol_id t = Symbol.id sym →
  get_current_holdings s user_id !! Symbol.name sym
  = Some (net_quantity s user_id (Symbol.id sym)).
Proof.
  intros Hnd Hs Ht Hu Hid. rewrite get_current_holdings_lookup.
  rewrite decide_True.
  - by rewrite joined_rows_group.
  - apply (list_elem_of_fmap_2 (λ r : Symbol.t * Transaction.t, Symbol.name r.1)
             _ (sym, t)).
    by apply joined_rows_elem.
Qed.

Lemma group_sum_perm rows rows' n :
  rows ≡ₚ rows' → group_sum rows n = group_sum rows' n.
Proof. intros Hp. unfold group_sum. by rewrite Hp. Qed.




(** C3. For every user and symbol, [calculate_average_cost_basis] is the
    sum of [quantity * price] over the transactions of that user and
    symbol with [quantity > 0], divided by the sum of their quantities,
    and it is 0 when the user has no such transaction for the symbol; on
    the ledger [buy 10 @ 120, sell 4 @ 150] it is 120, also when the
    table holds rows of another user and of another symbol. *)
Theorem average_cost_basis_spec :
  (∀ s user_id symbol_id,
     let acq :=
       filter (λ t, 0 < Transaction.quantity t)
         (filter (λ t, Transaction.user_id t = user_id
                       ∧ Transaction.symbol_id t = symbol_id)
                 (transactions s)) in
     (acq ≠ [] →
      calculate_average_cost_basis s user_id symbol_id
      = Qcsum ((λ t, Transaction.quantity t * Transaction.price t) <$> acq)
        / Qcsum (Transaction.quantity <$> acq))
     ∧ (acq = [] → calculate_average_cost_basis s user_id symbol_id = 0))
  ∧ calculate_average_cost_basis ledger_scenario 1 1 = qc 120 1
  ∧ calculate_average_cost_basis shared_ledger 1 1 = qc 120 1
  ∧ calculate_average_cost_basis shared_ledger 2 1 = qc 200 1
  ∧ calculate_average_cost_basis shared_ledger 1 2 = qc 50 1
  ∧ calculate_average_cost_basis shared_ledger 2 2 = 0.
Proof.
  split; [|split_and!; compute_done].
  intros s user_id symbol_id acq.
  pose proof (average_cost_basis_eq s user_id symbol_id) as Heq.
  cbv zeta in Heq. change (acquisitions (query_transactions s user_id symbol_id))
    with acq in Heq.
  change (cost_of <$> acq)
    with ((λ t, Transaction.quantity t * Transaction.price t) <$> acq) in Heq.
  rewrite Heq. split; intros H; by destruct (decide (acq = [])).
Qed.

Lemma average_cost_basis_spec_witness :
  filter (λ t, 0 < Transaction.quantity t)
    (filter (λ t, Transaction.user_id t = 2%Z ∧ Transaction.symbol_id t = 1%Z)
            (transactions shared_ledger)) ≠ []
  ∧ calculate_average_cost_basis shared_ledger 2 1
    = Qcsum ((λ t, Transaction.quantity t * Transaction.price t)
               <$> filter (λ t, 0 < Transaction.quantity t)
                     (filter (λ t, Transaction.user_id t = 2%Z
                                   ∧ Transaction.symbol_id t = 1%Z)
                             (transactions shared_ledger)))
      / Qcsum (Transaction.quantity
                 <$> filter (λ t, 0 < Transaction.quantity t)
                       (filter (λ t, Transaction.user_id t = 2%Z
                                     ∧ Transaction.symbol_id t = 1%Z)
                               (transactions shared_ledger)))
  ∧ filter (λ t, 0 < Transaction.quantity t)
      (filter (λ t, Transaction.user_id t = 2%Z ∧ Transaction.symbol_id t = 2%Z)
              (transactions shared_ledger)) = []
  ∧ calculate_average_cost_basis shared_ledger 2 2 = 0.
Proof.
  assert (filter (λ t, 0 < Transaction.quantity t)
            (filter (λ t, Transaction.user_id t = 2%Z
                          ∧ Transaction.symbol_id t = 1%Z)
                    (transactions shared_ledger)) ≠ []) as Hne
    by (vm_compute; discriminate).
  assert (filter (λ t, 0 < Transaction.quantity t)
            (filter (λ t, Transaction.user_id t = 2%Z
                          ∧ Transaction.symbol_id t = 2%Z)
                    (transactions shared_ledger)) = []) as Hnil
    by reflexivity.
  split; [exact Hne|]. split; [|split; [exact Hnil|]].
  - exact (proj1 (proj1 average_cost_basis_spec shared_ledger 2%Z 1%Z) Hne).
  - exact (proj2 (proj1 average_cost_basis_spec shared_ledger 2%Z 2%Z) Hnil).
Defined.

(** C6. For every user, [get_current_holdings] binds the name of each
    symbol the user has a transaction for to the signed sum of all the
    user's quantities for that symbol, whatever their sign, and keeps the
    key when that sum is 0. *)
Theorem current_holdings_spec s user_id sym t :
  NoDup (Symbol.name <$> symbols s) →
  sym ∈ symbols s → t ∈ transactions s →
  Transaction.user_id t = user_id →
  Transaction.symbol_id t = Symbol.id sym →
  get_current_holdings s user_id !! Symbol.name sym
  = Some (Qcsum (Transaction.quantity
                   <$> filter (λ t, Transaction.user_id t = user_id
                                    ∧ Transaction.symbol_id t = Symbol.id sym)
                              (transactions s)))
  ∧ (net_quantity s user_id (Symbol.id sym) = 0 →
     get_current_holdings s user_id !! Symbol.name sym = Some 0).
Proof.
  intros Hnd Hs Ht Hu Hid.
  pose proof (holdings_lookup_symbol s user_id sym t Hnd Hs Ht Hu Hid) as Hl.
  split; [exact Hl|]. intros Hz. by rewrite Hl, Hz.
Qed.

Lemma current_holdings_spec_witness :
  NoDup (Symbol.name <$> symbols ledger_flat)
  ∧ AAPL ∈ symbols ledger_flat
  ∧ sell_6_at_90 ∈ transactions ledger_flat
  ∧ net_quantity ledger_flat 1 (Symbol.id AAPL) = 0
  ∧ get_current_holdings ledger_flat 1 !! "AAPL" = Some 0.
Proof.
  assert (NoDup (Symbol.name <$> symbols ledger_flat)) as Hnd
    by compute_done.
  assert (AAPL ∈ symbols ledger_flat) as Hs by compute_done.
  assert (sell_6_at_90 ∈ transactions ledger_flat) as Ht by compute_done.
  assert (net_quantity ledger_flat 1 (Symbol.id AAPL) = 0) as Hz
    by compute_done.
  repeat (split; [assumption|]).
  exact (proj2 (current_holdings_spec ledger_flat 1%Z AAPL sell_6_at_90
                  Hnd Hs Ht eq_refl eq_refl) Hz).
Defined.

(** ** Rate aggregation *)

(** Case analysis along the [if]/[elif] chain on the provider key. *)
Ltac provider_cases key :=
  destruct (str_contains "EXCHANGERATE_HOST" key);
    [|destruct (str_contains "EXCHANGERATE_API" key);
      [|destruct (str_contains "OPEN_EXCHANGE_RATES" key)]].

Lemma omap_cons_eq {A B} (f : A → option B) x l :
  omap f (x :: l)
  = match f x with Some y => y :: omap f l | None => omap f l end.
Proof. done. Qed.

Section ForexProperties.

Variable http : request → result json.

Lemma fetch_forex_rate_ok cfg key base target config :
  assoc key cfg = Some config →
  ∃ v, fetch_forex_rate http cfg key base target = Ok v.
Proof.
  intros Hcfg. unfold fetch_forex_rate, try_except. rewrite Hcfg.
  destruct (fetch_body _ _ _ _ _); eauto.
Qed.

Lemma fetch_forex_rate_except cfg key base target config e :
  assoc key cfg = Some config →
  fetch_body http key (url config) base target = Raise e →
  fetch_forex_rate http cfg key base target = Ok JNull.
Proof.
  intros Hcfg Hbody. unfold fetch_forex_rate. by rewrite Hcfg, Hbody.
Qed.

(** Each branch starts with its one request: when that raises, so
    does the body. *)
Lemma fetch_body_transport key url base target req e :
  provider_request key url base target = Some req →
  http req = Raise e →
  fetch_body http key url base target = Raise e.
Proof.
  unfold provider_request, fetch_body. intros Hreq Hhttp.
  provider_cases key; [| | |done]; injection Hreq as <-; by rewrite Hhttp.
Qed.

Lemma aggregate_step_none cfg base target acc item :
  fetch_forex_rate http cfg item.1 base target = Ok JNull →
  aggregate_step http cfg base target acc item = Ok acc.
Proof. intros Hf. unfold aggregate_step. by rewrite Hf. Qed.

Lemma aggregate_step_number cfg base target acc item v r :
  fetch_forex_rate http cfg item.1 base target = Ok v →
  v ≠ JNull → as_number v = Some r →
  aggregate_step http cfg base target acc item
  = Ok (acc.1 + r * weight item.2, acc.2 + weight item.2).
Proof.
  intros Hf Hv Hr. unfold aggregate_step. rewrite Hf. simpl.
  unfold mul_float. rewrite Hr. by destruct v.
Qed.

Lemma aggregate_loop_app cfg base target pre post acc :
  aggregate_loop http cfg base target (pre ++ post) acc
  = acc' ← aggregate_loop http cfg base target pre acc;
    aggregate_loop http cfg base target post acc'.
Proof.
  revert acc. induction pre as [|item pre IH]; intros acc; simpl; [done|].
  destruct (aggregate_step _ _ _ _ _ _) as [acc'|e]; simpl; [apply IH|done].
Qed.

Lemma aggregate_loop_typed cfg base target items acc :
  Forall (λ item, typed_fetch http cfg base target item = true) items →
  aggregate_loop http cfg base target items acc
  = Ok (acc.1 + Qcsum ((λ q, q.1 * q.2)
                         <$> omap (quote_of http cfg base target) items),
        acc.2 + Qcsum (snd <$> omap (quote_of http cfg base target) items)).
Proof.
  intros Hall. revert acc.
  induction Hall as [|item items Hty _ IH]; intros acc.
  - simpl. by rewrite !Qcplus_0_r, <- surjective_pairing.
  - unfold typed_fetch in Hty. simpl aggregate_loop.
    rewrite (omap_cons_eq (quote_of http cfg base target)).
    destruct (fetch_forex_rate http cfg item.1 base target) as [v|e] eqn:Hf;
      [|done].
    destruct (as_number v) as [r|] eqn:Hr.
    + assert (quote_of http cfg base target item = Some (r, weight item.2))
        as -> by (unfold quote_of; by rewrite Hf, Hr).
      rewrite (aggregate_step_number _ _ _ _ _ v r Hf)
        by (done || by destruct v).
      rewrite !fmap_cons, !Qcsum_cons. cbn [mbind result_bind fst snd].
      rewrite IH. cbn [fst snd]. f_equal. f_equal; ring.
    + assert (quote_of http cfg base target item = None)
        as -> by (unfold quote_of; by rewrite Hf, Hr).
      assert (v = JNull) as -> by (by destruct v).
      rewrite (aggregate_step_none _ _ _ _ _ Hf). apply IH.
Qed.

Lemma quotes_weights_pos cfg base target items :
  Forall (λ item : string * provider_info, 0 < weight item.2) items →
  Forall (λ q : float * float, 0 < q.2)
         (omap (quote_of http cfg base target) items).
Proof.
  intros Hall. induction Hall as [|item items Hw _ IH]; [constructor|].
  simpl. unfold quote_of at 1.
  destruct (fetch_forex_rate _ _ _ _ _) as [v|]; [|done].
  destruct (as_number v); [|done]. by constructor.
Qed.

Lemma get_advanced_forex_rate_mean cfg base target :
  Forall (λ item : string * provider_info, 0 < weight item.2) cfg →
  Forall (λ item, typed_fetch http cfg base target item = true) cfg →
  quotes http cfg base target ≠ [] →
  get_advanced_forex_rate http cfg base target
  = Ok (Some (weighted_mean (quotes http cfg base target))).
Proof.
  intros Hpos Hty Hne. unfold get_advanced_forex_rate.
  rewrite aggregate_loop_typed by done. simpl.
  fold (quotes http cfg base target). rewrite !Qcplus_0_l.
  rewrite decide_True; [done|].
  apply Qcsum_pos.
  - by destruct (quotes http cfg base target).
  - apply Forall_fmap. by apply quotes_weights_pos.
Qed.

Lemma get_advanced_forex_rate_all_fail cfg base target :
  Forall (λ item, fetch_forex_rate http cfg item.1 base target = Ok JNull)
         cfg →
  get_advanced_forex_rate http cfg base target = Ok None.
Proof.
  intros Hall. unfold get_advanced_forex_rate.
  assert (∀ items acc,
            Forall (λ item, fetch_forex_rate http cfg item.1 base target
                            = Ok JNull) items →
            aggregate_loop http cfg base target items acc = Ok acc) as Hloop.
  { intros items acc Hitems. revert acc.
    induction Hitems as [|item items Hf _ IH]; intros acc; [done|].
    simpl. rewrite aggregate_step_none by done. apply IH. }
  rewrite Hloop by done. done.
Qed.

End ForexProperties.

(** ** The weighted mean stays within its quotes *)














(** C1. With quotes 1.10 (weight 1.0) and 1.12 (weight 0.5) and the
    third provider failing, the call returns (1.10*1.0 + 1.12*0.5) / 1.5.
    But when the second provider answers with its rate as a string while
    the first one quotes 1.10, the fetch returns the string as it is and
    the call raises [TypeError] at [rate * weight]: a provider returned a
    rate, and the weighted mean over the providers that succeeded is not
    returned. *)
Theorem unvalidated_rate_breaks_mean :
  get_advanced_forex_rate scenario_http scenario_config "USD" "EUR"
  = Ok (Some ((qc 110 100 * 1 + qc 112 100 * qc 1 2) / qc 15 10))
  ∧ fetch_forex_rate string_rate_http PROVIDER_CONFIG
                     "EXCHANGERATE_HOST" "USD" "EUR"
    = Ok (JNum (qc 110 100))
  ∧ fetch_forex_rate string_rate_http PROVIDER_CONFIG
                     "EXCHANGERATE_API" "USD" "EUR"
    = Ok (JStr "1.12")
  ∧ fetch_forex_rate string_rate_http PROVIDER_CONFIG
                     "OPEN_EXCHANGE_RATES" "USD" "EUR"
    = Ok JNull
  ∧ quotes string_rate_http PROVIDER_CONFIG "USD" "EUR" = [(qc 110 100, 1)]
  ∧ get_advanced_forex_rate string_rate_http PROVIDER_CONFIG "USD" "EUR"
    = Raise TypeError.
Proof. split_and!; compute_done. Qed.

(** ** The loops in binary64 *)

(** What holds of the two loops with the rounding of the source: the
    part of their behaviour that does not depend on the arithmetic, and
    their agreement with the exact loops, operation by operation, on the
    runs in which nothing is rounded. *)

Section Binary64Properties.
Import Floats.

































End Binary64Properties.

(** ** Provider failures *)

Lemma fetch_body_missing_rate http key url base target req data tbl :
  provider_request key url base target = Some req →
  http req = Ok data →
  getitem data (rate_table_key key) = Ok (JObj tbl) →
  assoc target tbl = None →
  try_except (fetch_body http key url base target) JNull = Ok JNull.
Proof.
  unfold provider_request, fetch_body, rate_table_key.
  intros Hreq Hhttp Htbl Hmiss.
  provider_cases key; [| | |done];
    injection Hreq as <-; rewrite Hhttp; simpl; rewrite Htbl; simpl.
  - by rewrite Hmiss.
  - by rewrite Hmiss.
  - destruct (decide (base = "USD"%string)); simpl; [by rewrite Hmiss|].
    destruct (bool_decide (is_Some (assoc base tbl))); simpl; [|done].
    rewrite Hmiss. by rewrite bool_decide_eq_false_2 by (by intros [? ?]).
Qed.

Lemma aggregate_loop_skip http cfg base target pre item post acc :
  fetch_forex_rate http cfg item.1 base target = Ok JNull →
  aggregate_loop http cfg base target (pre ++ item :: post) acc
  = aggregate_loop http cfg base target (pre ++ post) acc.
Proof.
  intros Hf. rewrite !aggregate_loop_app.
  destruct (aggregate_loop http cfg base target pre acc) as [acc'|e]; [|done].
  simpl. by rewrite aggregate_step_none.
Qed.

Lemma quote_of_none http cfg base target item :
  fetch_forex_rate http cfg item.1 base target = Ok JNull →
  quote_of http cfg base target item = None.
Proof. intros Hf. unfold quote_of. by rewrite Hf. Qed.

(** C4. A fetch for a configured provider never raises: whatever its
    body raises, and in particular a failed request or a rate table
    without the requested currency, makes it return [None]; the loop
    skips a provider that returned [None] and goes on with the others;
    and when every provider returns [None] the call returns [None]. A
    payload with a rate that is not a number is not caught: when the
    third provider's rate for the target is the text ["N/A"], its fetch
    returns that text instead of [None], and the call raises [TypeError],
    both when the other providers fail, where [None] is due, and when
    the first provider quotes 1.10, where that quote is due. *)
Theorem malformed_payload_aborts_aggregation :
  (∀ http cfg key base target config,
     assoc key cfg = Some config →
     (∃ v, fetch_forex_rate http cfg key base target = Ok v)
     ∧ (∀ e, fetch_body http key (url config) base target = Raise e →
             fetch_forex_rate http cfg key base target = Ok JNull)
     ∧ (∀ req e, provider_request key (url config) base target = Some req →
                 http req = Raise e →
                 fetch_forex_rate http cfg key base target = Ok JNull)
     ∧ (∀ req data tbl,
          provider_request key (url config) base target = Some req →
          http req = Ok data →
          getitem data (rate_table_key key) = Ok (JObj tbl) →
          assoc target tbl = None →
          fetch_forex_rate http cfg key base target = Ok JNull))
  ∧ (∀ http cfg base target pre item post acc,
       fetch_forex_rate http cfg item.1 base target = Ok JNull →
       quote_of http cfg base target item = None
       ∧ aggregate_loop http cfg base target (pre ++ item :: post) acc
         = aggregate_loop http cfg base target (pre ++ post) acc)
  ∧ (∀ http cfg base target,
       Forall (λ item, fetch_forex_rate http cfg item.1 base target = Ok JNull)
              cfg →
       get_advanced_forex_rate http cfg base target = Ok None)
  ∧ (∀ host,
       fetch_forex_rate (malformed_rate_http host) PROVIDER_CONFIG
                        "OPEN_EXCHANGE_RATES" "USD" "EUR"
       = Ok (JStr "N/A"))
  ∧ get_advanced_forex_rate (malformed_rate_http (Raise RequestException))
                            PROVIDER_CONFIG "USD" "EUR"
    = Raise TypeError
  ∧ quotes (malformed_rate_http
              (Ok (JObj [("rates", JObj [("EUR", JNum (qc 110 100))])]%string)))
           PROVIDER_CONFIG "USD" "EUR"
    = [(qc 110 100, 1)]
  ∧ get_advanced_forex_rate
      (malformed_rate_http
         (Ok (JObj [("rates", JObj [("EUR", JNum (qc 110 100))])]%string)))
      PROVIDER_CONFIG "USD" "EUR"
    = Raise TypeError.
Proof.
  split_and!; try compute_done.
  - intros http cfg key base target config Hcfg. split_and!.
    + by eapply fetch_forex_rate_ok.
    + intros e. by apply fetch_forex_rate_except.
    + intros req e Hreq Hhttp.
      eapply fetch_forex_rate_except; [done|].
      by eapply fetch_body_transport.
    + intros req data tbl Hreq Hhttp Htbl Hmiss.
      unfold fetch_forex_rate. rewrite Hcfg.
      by eapply fetch_body_missing_rate.
  - intros http cfg base target pre item post acc Hf. split.
    + by apply quote_of_none.
    + by apply aggregate_loop_skip.
  - intros http cfg base target. apply get_advanced_forex_rate_all_fail.
  - intros host. reflexivity.
Qed.

Lemma malformed_payload_aborts_aggregation_witness :
  assoc "OPEN_EXCHANGE_RATES"%string PROVIDER_CONFIG
  = Some (ProviderInfo
            "https://openexchangerates.org/api/latest.json?app_id=YOUR_APP_ID"
            (qc 9 10))
  ∧ fetch_forex_rate scenario_http PROVIDER_CONFIG "OPEN_EXCHANGE_RATES"
                     "USD" "EUR" = Ok JNull
  ∧ (quote_of scenario_http PROVIDER_CONFIG "USD" "EUR"
              ("OPEN_EXCHANGE_RATES"%string,
               ProviderInfo
                 "https://openexchangerates.org/api/latest.json?app_id=YOUR_APP_ID"
                 (qc 9 10)) = None
     ∧ aggregate_loop scenario_http PROVIDER_CONFIG "USD" "EUR"
                      PROVIDER_CONFIG (0, 0)
       = aggregate_loop scenario_http PROVIDER_CONFIG "USD" "EUR"
                        (take 2 PROVIDER_CONFIG) (0, 0))
  ∧ Forall (λ item : string * provider_info,
              fetch_forex_rate (λ _, Raise RequestException) PROVIDER_CONFIG
                               item.1 "USD" "EUR" = Ok JNull) PROVIDER_CONFIG
  ∧ get_advanced_forex_rate (λ _, Raise RequestException) PROVIDER_CONFIG
                            "USD" "EUR" = Ok None.
Proof.
  assert (assoc "OPEN_EXCHANGE_RATES"%string PROVIDER_CONFIG
          = Some (ProviderInfo
                    "https://openexchangerates.org/api/latest.json?app_id=YOUR_APP_ID"
                    (qc 9 10))) as Hcfg by reflexivity.
  assert (Forall (λ item : string * provider_info,
              fetch_forex_rate (λ _, Raise RequestException) PROVIDER_CONFIG
                               item.1 "USD" "EUR" = Ok JNull) PROVIDER_CONFIG)
    as Hall by (repeat constructor).
  assert (fetch_forex_rate scenario_http PROVIDER_CONFIG "OPEN_EXCHANGE_RATES"
                           "USD" "EUR" = Ok JNull) as Hnone.
  { exact (proj1 (proj2 (proj2 (proj1 malformed_payload_aborts_aggregation
             scenario_http PROVIDER_CONFIG "OPEN_EXCHANGE_RATES"%string
             "USD"%string "EUR"%string _ Hcfg)))
             (Request "https://openexchangerates.org/api/latest.json?app_id=YOUR_APP_ID" [])
             RequestException eq_refl eq_refl). }
  split; [exact Hcfg|]. split; [exact Hnone|]. split; [|split; [exact Hall|]].
  - exact (proj1 (proj2 malformed_payload_aborts_aggregation)
             scenario_http PROVIDER_CONFIG "USD"%string "EUR"%string
             (take 2 PROVIDER_CONFIG)
             ("OPEN_EXCHANGE_RATES"%string,
              ProviderInfo
                "https://openexchangerates.org/api/latest.json?app_id=YOUR_APP_ID"
                (qc 9 10)) [] (0, 0) Hnone).
  - exact (proj1 (proj2 (proj2 malformed_payload_aborts_aggregation))
             (λ _, Raise RequestException) PROVIDER_CONFIG
             "USD"%string "EUR"%string Hall).
Defined.

(** ** The indirect quote of OPEN_EXCHANGE_RATES *)

(** The third branch, for a base other than USD. *)
Lemma fetch_open_exchange_rates http base target :
  base ≠ "USD"%string →
  fetch_forex_rate http PROVIDER_CONFIG "OPEN_EXCHANGE_RATES" base target
  = try_except
      (data ← http oxr_request;
       rates ← getitem data "rates";
       base_in ← contains rates base;
       if base_in : bool then
         target_in ← contains rates target;
         if target_in : bool then
           t ← getitem rates target;
           b ← getitem rates base;
           truediv t b
         else Ok JNull
       else Ok JNull)
      JNull.
Proof.
  intros Hbase. unfold fetch_forex_rate. cbn [assoc PROVIDER_CONFIG].
  rewrite decide_False by done. rewrite decide_False by done.
  rewrite decide_True by done. unfold fetch_body.
  change (str_contains "EXCHANGERATE_HOST" "OPEN_EXCHANGE_RATES") with false.
  change (str_contains "EXCHANGERATE_API" "OPEN_EXCHANGE_RATES") with false.
  change (str_contains "OPEN_EXCHANGE_RATES" "OPEN_EXCHANGE_RATES") with true.
  cbn iota. cbn [url]. by destruct (decide (base = "USD"%string)).
Qed.

(** C7. For a base other than USD, OPEN_EXCHANGE_RATES returns a rate
    only when both [base] and [target] are keys of the provider's rate
    table, and the rate is then [rates[target] / rates[base]]; when
    either key is missing it returns [None]. *)
Theorem open_exchange_rates_cross_rate http base target :
  base ≠ "USD"%string →
  (∀ v, fetch_forex_rate http PROVIDER_CONFIG "OPEN_EXCHANGE_RATES" base target
        = Ok v →
        v ≠ JNull →
        ∃ data tbl t b x y,
          http oxr_request = Ok data
          ∧ getitem data "rates" = Ok (JObj tbl)
          ∧ assoc target tbl = Some t ∧ assoc base tbl = Some b
          ∧ as_number t = Some x ∧ as_number b = Some y ∧ y ≠ 0
          ∧ v = JNum (x / y))
  ∧ (∀ data tbl,
       http oxr_request = Ok data →
       getitem data "rates" = Ok (JObj tbl) →
       (assoc base tbl = None ∨ assoc target tbl = None →
        fetch_forex_rate http PROVIDER_CONFIG "OPEN_EXCHANGE_RATES" base target
        = Ok JNull)
       ∧ (∀ x y, assoc target tbl = Some (JNum x) →
                 assoc base tbl = Some (JNum y) → y ≠ 0 →
                 fetch_forex_rate http PROVIDER_CONFIG "OPEN_EXCHANGE_RATES"
                                  base target
                 = Ok (JNum (x / y)))).
Proof.
  intros Hbase. rewrite fetch_open_exchange_rates by done. split.
  - intros v Hv Hnn.
    destruct (http oxr_request) as [data|] eqn:Hhttp; simpl in Hv;
      [|congruence].
    destruct (getitem data "rates") as [rates|] eqn:Hrates; simpl in Hv;
      [|congruence].
    destruct rates as [| | |str|xs|tbl]; simpl in Hv; try congruence.
    + destruct (str_contains base str); simpl in Hv; [|congruence].
      destruct (str_contains target str); simpl in Hv; congruence.
    + destruct (existsb (is_str base) xs); simpl in Hv; [|congruence].
      destruct (existsb (is_str target) xs); simpl in Hv; congruence.
    + destruct (assoc base tbl) as [b|] eqn:Hb; simpl in Hv; [|congruence].
      destruct (assoc target tbl) as [t|] eqn:Ht; simpl in Hv; [|congruence].
      unfold truediv in Hv.
      destruct (as_number t) as [x|] eqn:Hx; [|simpl in Hv; congruence].
      destruct (as_number b) as [y|] eqn:Hy; [|simpl in Hv; congruence].
      destruct (decide (y = 0)); simpl in Hv; [congruence|].
      exists data, tbl, t, b, x, y. repeat split; congruence || done.
  - intros data tbl Hhttp Hrates. rewrite Hhttp. simpl. rewrite Hrates. simpl.
    split.
    + intros [Hb|Ht].
      * rewrite Hb. by rewrite bool_decide_eq_false_2 by (by intros [? ?]).
      * destruct (bool_decide (is_Some (assoc base tbl))); simpl; [|done].
        rewrite Ht. by rewrite bool_decide_eq_false_2 by (by intros [? ?]).
    + intros x y Ht Hb Hy. rewrite Hb, Ht.
      rewrite !bool_decide_eq_true_2 by eauto. simpl.
      unfold truediv. simpl. by rewrite decide_False.
Qed.

Lemma open_exchange_rates_cross_rate_witness :
  "EUR"%string ≠ "USD"%string
  ∧ fetch_forex_rate cross_http PROVIDER_CONFIG "OPEN_EXCHANGE_RATES"
                     "EUR" "GBP" = Ok (JNum (qc 8 10 / qc 9 10))
  ∧ fetch_forex_rate cross_http PROVIDER_CONFIG "OPEN_EXCHANGE_RATES"
                     "EUR" "JPY" = Ok JNull.
Proof.
  assert ("EUR"%string ≠ "USD"%string) as Hbase by discriminate.
  assert (qc 9 10 ≠ 0) as Hnz by compute_done.
  split; [exact Hbase|]. split.
  - exact (proj2 (proj2 (open_exchange_rates_cross_rate cross_http
             "EUR"%string "GBP"%string Hbase) _ _ eq_refl eq_refl)
             (qc 8 10) (qc 9 10) eq_refl eq_refl Hnz).
  - exact (proj1 (proj2 (open_exchange_rates_cross_rate cross_http
             "EUR"%string "JPY"%string Hbase) _ _ eq_refl eq_refl)
             (or_intror eq_refl)).
Defined.

(** ** Alert evaluation *)

(** A set, non-zero threshold is compared inclusively. *)
Lemma upper_breached_nonzero alert current_price u :
  Alert.upper_threshold alert = Some u → u ≠ 0 →
  upper_breached alert current_price = true ↔ u ≤ current_price.
Proof.
  intros Hu Hnz. unfold upper_breached, truthy. rewrite Hu.
  rewrite bool_decide_eq_true_2 by done. simpl.
  apply bool_decide_eq_true.
Qed.

Lemma lower_breached_nonzero alert current_price l :
  Alert.lower_threshold alert = Some l → l ≠ 0 →
  lower_breached alert current_price = true ↔ current_price ≤ l.
Proof.
  intros Hl Hnz. unfold lower_breached, truthy. rewrite Hl.
  rewrite bool_decide_eq_true_2 by done. simpl.
  apply bool_decide_eq_true.
Qed.

(** A threshold of [0.0] is falsy, hence never compared. *)
Lemma upper_breached_zero alert current_price :
  Alert.upper_threshold alert = Some 0 →
  upper_breached alert current_price = false.
Proof. intros Hu. unfold upper_breached. by rewrite Hu. Qed.

Lemma lower_breached_zero alert current_price :
  Alert.lower_threshold alert = Some 0 →
  lower_breached alert current_price = false.
Proof. intros Hl. unfold lower_breached. by rewrite Hl. Qed.

Lemma evaluate_alert_eq symbol_name current_price alert :
  evaluate_alert symbol_name current_price alert
  = (upper_breached alert current_price || lower_breached alert current_price,
     (if upper_breached alert current_price
      then [MsgLine symbol_name Above (Alert.upper_threshold alert)
                    current_price]
      else [])
     ++ (if lower_breached alert current_price
         then [MsgLine symbol_name Below (Alert.lower_threshold alert)
                       current_price]
         else [])).
Proof.
  unfold evaluate_alert.
  by destruct (upper_breached alert current_price),
              (lower_breached alert current_price).
Qed.

(** With both thresholds set, non-zero and crossed, one evaluation
    gives both lines. *)
Lemma evaluate_alert_both symbol_name current_price alert u l :
  Alert.upper_threshold alert = Some u → u ≠ 0 →
  Alert.lower_threshold alert = Some l → l ≠ 0 →
  u ≤ current_price → current_price ≤ l →
  evaluate_alert symbol_name current_price alert
  = (true, [MsgLine symbol_name Above (Some u) current_price;
            MsgLine symbol_name Below (Some l) current_price]).
Proof.
  intros Hu Hunz Hl Hlnz Hup Hlo. rewrite evaluate_alert_eq.
  rewrite (proj2 (upper_breached_nonzero alert current_price u Hu Hunz) Hup).
  rewrite (proj2 (lower_breached_nonzero alert current_price l Hl Hlnz) Hlo).
  by rewrite Hu, Hl.
Qed.

(** Inactive rules never reach the loop. *)
Lemma query_alerts_active s symbol_id alert :
  alert ∈ query_alerts s symbol_id →
  Alert.active alert = true ∧ Alert.symbol_id alert = symbol_id.
Proof.
  unfold query_alerts. intros [[? ?] _]%list_elem_of_filter. done.
Qed.

Lemma query_symbol_none s symbol_name :
  (∀ sym, sym ∈ symbols s → Symbol.name sym ≠ symbol_name) →
  query_symbol s symbol_name = None.
Proof.
  intros Hno. unfold query_symbol.
  destruct (filter _ (symbols s)) as [|sym l] eqn:Hf; [done|].
  assert (sym ∈ filter (λ sym, Symbol.name sym = symbol_name) (symbols s))
    as [Hname Hin]%list_elem_of_filter by (rewrite Hf; by left).
  by destruct (Hno sym Hin).
Qed.

(** C2, on the code: an active rule whose thresholds are both set to
    [0.0] sends nothing at price 5 (above the upper threshold) and
    nothing at price 0 (equal to both thresholds), since a zero threshold
    is falsy and the comparison is skipped. *)
Theorem zero_threshold_not_compared send_email_alert :
  check_and_trigger_alerts send_email_alert zero_threshold_session
                           "AAPL" (qc 5 1) = ([], Ok ())
  ∧ check_and_trigger_alerts send_email_alert zero_threshold_session
                             "AAPL" 0 = ([], Ok ())
  ∧ query_alerts zero_threshold_session 1
    = [Alert.mk 1 1 1 (Some 0) (Some 0) true]
  ∧ (0 : float) ≤ qc 5 1.
Proof. repeat split; done. Qed.

(** C8, on the code: an active rule with lower threshold 10.0 above its
    upper threshold 0.0, evaluated at price 5 (at least the upper and at
    most the lower threshold), yields the lower-breach line only. *)
Theorem crossed_zero_single_trigger :
  evaluate_alert "AAPL" (qc 5 1) (Alert.mk 1 1 1 (Some 0) (Some (qc 10 1)) true)
  = (true, [MsgLine "AAPL" Below (Some (qc 10 1)) (qc 5 1)])
  ∧ check_and_trigger_alerts (λ _, Ok ()) crossed_zero_session "AAPL" (qc 5 1)
    = ([EmailCall "demo@example.com" "Price Alert for AAPL"
                  [MsgLine "AAPL" Below (Some (qc 10 1)) (qc 5 1)]], Ok ())
  ∧ (0 : float) ≤ qc 5 1 ∧ qc 5 1 ≤ qc 10 1 ∧ (0 : float) < qc 10 1.
Proof. repeat split; done. Qed.

(** C10. With no [Symbol] row of the given name,
    [check_and_trigger_alerts] returns at once: no rule is evaluated and
    [send_email_alert] is not called, whatever the price. *)
Theorem unknown_symbol_no_alert send_email_alert s symbol_name current_price :
  (∀ sym, sym ∈ symbols s → Symbol.name sym ≠ symbol_name) →
  check_and_trigger_alerts send_email_alert s symbol_name current_price
  = ([], Ok ()).
Proof.
  intros Hno. unfold check_and_trigger_alerts.
  by rewrite query_symbol_none.
Qed.

Lemma unknown_symbol_no_alert_witness :
  (∀ sym, sym ∈ symbols zero_threshold_session → Symbol.name sym ≠ "TSLA"%string)
  ∧ check_and_trigger_alerts (λ _, Raise SMTPException) zero_threshold_session
                             "TSLA" (qc 5 1) = ([], Ok ()).
Proof.
  assert (∀ sym, sym ∈ symbols zero_threshold_session
                 → Symbol.name sym ≠ "TSLA"%string) as Hno.
  { intros sym Hin. apply list_elem_of_singleton in Hin as ->. discriminate. }
  split; [exact Hno|].
  exact (unknown_symbol_no_alert (λ _, Raise SMTPException)
           zero_threshold_session "TSLA"%string (qc 5 1) Hno).
Defined.

(** * Further properties of the ledger *)

Lemma joined_rows_elem_iff s user_id sym t :
  (sym, t) ∈ joined_rows s user_id
  ↔ sym ∈ symbols s ∧ t ∈ transactions s
    ∧ Transaction.user_id t = user_id
    ∧ Transaction.symbol_id t = Symbol.id sym.
Proof.
  split; [|intros (?&?&?&?); by apply joined_rows_elem].
  unfold joined_rows. intros [Hu Hin]%list_elem_of_filter.
  apply list_elem_of_bind in Hin as (sym'&Hin&Hsym).
  apply list_elem_of_bind in Hin as (t'&Hin&Ht).
  destruct (decide (Symbol.id sym' = Transaction.symbol_id t')) as [Hid|];
    [|by apply elem_of_nil in Hin].
  apply list_elem_of_singleton in Hin as [= -> ->]. done.
Qed.

(** X1. A name is a key of the holdings exactly when a symbol row of that
    name is referenced by a transaction of the user. *)
Theorem holdings_key_iff s user_id n :
  is_Some (get_current_holdings s user_id !! n)
  ↔ ∃ sym t, sym ∈ symbols s ∧ t ∈ transactions s
             ∧ Symbol.name sym = n
             ∧ Transaction.user_id t = user_id
             ∧ Transaction.symbol_id t = Symbol.id sym.
Proof.
  rewrite get_current_holdings_lookup. split.
  - destruct (decide _) as [Hin|]; [|by intros [? ?]]. intros _.
    apply list_elem_of_fmap in Hin as ([sym t]&->&Hin).
    apply joined_rows_elem_iff in Hin as (?&?&?&?). by exists sym, t.
  - intros (sym&t&Hs&Ht&<-&Hu&Hid). rewrite decide_True; [done|].
    apply (list_elem_of_fmap_2 (λ r : Symbol.t * Transaction.t, Symbol.name r.1)
             _ (sym, t)).
    by apply joined_rows_elem.
Qed.

Lemma join_symbol_app txs txs' sym :
  join_symbol (txs ++ txs') sym = join_symbol txs sym ++ join_symbol txs' sym.
Proof. unfold join_symbol. apply bind_app. Qed.

Lemma joined_rows_join s user_id :
  joined_rows s user_id
  = filter (λ r, Transaction.user_id r.2 = user_id)
           (symbols s ≫= join_symbol (transactions s)).
Proof. done. Qed.

(** The rows a new transaction adds to the join. *)
Lemma joined_rows_add s t user_id :
  joined_rows (add_transaction s t) user_id
  ≡ₚ joined_rows s user_id
     ++ filter (λ r, Transaction.user_id r.2 = user_id)
               (symbols s ≫= join_symbol [t]).
Proof.
  rewrite !joined_rows_join. simpl. rewrite <- filter_app.
  apply filter_Permutation.
  induction (symbols s) as [|sym syms IH]; [done|].
  rewrite !bind_cons, join_symbol_app, IH.
  rewrite <- !(assoc_L (++)). apply Permutation_app_head.
  rewrite !(assoc_L (++)). apply Permutation_app_tail, Permutation_app_comm.
Qed.

Lemma join_symbol_single t sym :
  join_symbol [t] sym
  = if decide (Symbol.id sym = Transaction.symbol_id t) then [(sym, t)] else [].
Proof. unfold join_symbol. simpl. by rewrite app_nil_r. Qed.

Lemma bind_join_single syms t :
  syms ≫= join_symbol [t]
  = (λ sym, (sym, t))
      <$> filter (λ sym, Symbol.id sym = Transaction.symbol_id t) syms.
Proof.
  induction syms as [|sym syms IH]; [done|].
  rewrite bind_cons, IH, join_symbol_single, filter_cons.
  by destruct (decide _).
Qed.

(** X2. The ledger of one user is not affected by what another user
    records: neither the holdings nor any cost basis changes. *)
Theorem ledger_isolated_per_user s t user_id :
  Transaction.user_id t ≠ user_id →
  get_current_holdings (add_transaction s t) user_id
  = get_current_holdings s user_id
  ∧ ∀ symbol_id,
      calculate_average_cost_basis (add_transaction s t) user_id symbol_id
      = calculate_average_cost_basis s user_id symbol_id.
Proof.
  intros Hu. split.
  - assert (joined_rows (add_transaction s t) user_id
            ≡ₚ joined_rows s user_id) as Hp.
    { rewrite joined_rows_add, bind_join_single.
      assert (filter (λ r : Symbol.t * Transaction.t,
                        Transaction.user_id r.2 = user_id)
                ((λ sym, (sym, t))
                   <$> filter (λ sym, Symbol.id sym = Transaction.symbol_id t)
                              (symbols s)) = []) as ->.
      { induction (filter _ (symbols s)) as [|sym l IH]; [done|].
        rewrite fmap_cons, filter_cons. simpl. by rewrite decide_False. }
      by rewrite app_nil_r. }
    apply map_eq. intros n. rewrite !get_current_holdings_lookup.
    rewrite (group_sum_perm _ _ n Hp).
    destruct (decide (n ∈ _ <$> joined_rows s user_id)) as [Hin|Hnin].
    + rewrite decide_True; [done | by rewrite Hp].
    + rewrite decide_False; [done | by rewrite Hp].
  - intros symbol_id. unfold calculate_average_cost_basis.
    rewrite query_transactions_add.
    destruct (decide (_ ∧ _)) as [[? _]|_]; [done|]. by rewrite app_nil_r.
Qed.

Lemma ledger_isolated_per_user_witness :
  Transaction.user_id sell_6_at_90 ≠ 2%Z
  ∧ get_current_holdings (add_transaction ledger_scenario sell_6_at_90) 2
    = get_current_holdings ledger_scenario 2.
Proof.
  assert (Transaction.user_id sell_6_at_90 ≠ 2%Z) as Hu by discriminate.
  split; [exact Hu|].
  exact (proj1 (ledger_isolated_per_user ledger_scenario sell_6_at_90 2%Z Hu)).
Defined.

Lemma filter_key_singleton {A} (f : A → Z) (l : list A) x :
  NoDup (f <$> l) → x ∈ l → filter (λ y, f y = f x) l = [x].
Proof.
  induction l as [|y l IH]; intros Hnd Hin; [by apply elem_of_nil in Hin|].
  rewrite fmap_cons in Hnd. apply NoDup_cons in Hnd as [Hfresh Hnd].
  rewrite filter_cons. apply elem_of_cons in Hin as [<-|Hin].
  - rewrite decide_True by done. f_equal.
    clear IH Hnd. induction l as [|z l IH]; [done|].
    rewrite filter_cons, decide_False.
    + apply IH. intros ?. apply Hfresh. rewrite fmap_cons. by right.
    + intros Heq. apply Hfresh. rewrite fmap_cons, Heq. by left.
  - rewrite decide_False; [by apply IH|].
    intros Heq. apply Hfresh. rewrite Heq. by apply list_elem_of_fmap_2.
Qed.

Lemma group_sum_app rows rows' n :
  group_sum (rows ++ rows') n = group_sum rows n + group_sum rows' n.
Proof. unfold group_sum. by rewrite filter_app, fmap_app, Qcsum_app. Qed.

Lemma group_sum_absent rows n :
  n ∉ (λ r : Symbol.t * Transaction.t, Symbol.name r.1) <$> rows →
  group_sum rows n = 0.
Proof.
  intros Hnin. unfold group_sum.
  assert (filter (λ r : Symbol.t * Transaction.t, Symbol.name r.1 = n) rows
          = []) as ->; [|done].
  induction rows as [|r rows IH]; [done|].
  rewrite fmap_cons in Hnin. apply not_elem_of_cons in Hnin as [Hne Hnin].
  rewrite filter_cons, decide_False by done. by apply IH.
Qed.

(** X3. Recording a transaction for an existing symbol adds its quantity
    to that symbol's entry of the user's holdings (creating the entry when
    there was none) and leaves every other entry as it was. *)
Theorem holdings_after_transaction s t sym :
  NoDup (Symbol.id <$> symbols s) →
  sym ∈ symbols s →
  Transaction.symbol_id t = Symbol.id sym →
  get_current_holdings (add_transaction s t) (Transaction.user_id t)
  = <[Symbol.name sym :=
        default 0 (get_current_holdings s (Transaction.user_id t)
                     !! Symbol.name sym)
        + Transaction.quantity t]>
      (get_current_holdings s (Transaction.user_id t)).
Proof.
  intros Hnd Hin Hid. set (u := Transaction.user_id t).
  assert (joined_rows (add_transaction s t) u
          ≡ₚ joined_rows s u ++ [(sym, t)]) as Hp.
  { rewrite joined_rows_add, bind_join_single, Hid.
    rewrite (filter_key_singleton Symbol.id) by done.
    rewrite fmap_cons, filter_cons. simpl. by rewrite decide_True. }
  apply map_eq. intros n.
  rewrite get_current_holdings_lookup, (group_sum_perm _ _ n Hp), group_sum_app.
  assert (group_sum [(sym, t)] n
          = if decide (Symbol.name sym = n) then Transaction.quantity t else 0)
    as ->.
  { unfold group_sum. rewrite filter_cons. simpl.
    destruct (decide (Symbol.name sym = n)); simpl; [|done].
    by rewrite Qcplus_0_r. }
  destruct (decide (Symbol.name sym = n)) as [<-|Hne].
  - rewrite lookup_insert_eq, decide_True.
    + rewrite get_current_holdings_lookup.
      destruct (decide (_ ∈ _ <$> joined_rows s u)) as [|Hnin]; [done|].
      simpl. by rewrite group_sum_absent.
    + rewrite Hp, fmap_app. apply elem_of_app. right. by left.
  - rewrite lookup_insert_ne by done. rewrite get_current_holdings_lookup.
    rewrite Qcplus_0_r.
    destruct (decide (n ∈ _ <$> joined_rows s u)) as [Hn|Hn].
    + rewrite decide_True; [done|].
      rewrite Hp, fmap_app. apply elem_of_app. by left.
    + rewrite decide_False; [done|].
      rewrite Hp, fmap_app. intros [?|Hl]%elem_of_app; [done|].
      by apply list_elem_of_singleton in Hl.
Qed.

Lemma holdings_after_transaction_witness :
  NoDup (Symbol.id <$> symbols ledger_scenario)
  ∧ AAPL ∈ symbols ledger_scenario
  ∧ get_current_holdings ledger_flat 1
    = <["AAPL"%string :=
          default 0 (get_current_holdings ledger_scenario 1 !! "AAPL"%string)
          + qc (-6) 1]> (get_current_holdings ledger_scenario 1).
Proof.
  assert (NoDup (Symbol.id <$> symbols ledger_scenario)) as Hnd
    by compute_done.
  assert (AAPL ∈ symbols ledger_scenario) as Hin by compute_done.
  split; [exact Hnd|]. split; [exact Hin|].
  exact (holdings_after_transaction ledger_scenario sell_6_at_90 AAPL
           Hnd Hin eq_refl).
Defined.

(** * Further properties of the rate aggregation *)

Lemma quotes_nil_all_none http cfg base target items :
  Forall (λ item, typed_fetch http cfg base target item = true) items →
  omap (quote_of http cfg base target) items = [] →
  Forall (λ item, fetch_forex_rate http cfg item.1 base target = Ok JNull)
         items.
Proof.
  intros Hty. induction Hty as [|item items Hty _ IH]; [constructor|].
  rewrite omap_cons_eq. unfold typed_fetch in Hty. unfold quote_of at 1.
  destruct (fetch_forex_rate http cfg item.1 base target) as [v|] eqn:Hf;
    [|done].
  destruct v; simpl; try done. intros Hnil. constructor; [done | by apply IH].
Qed.

(** X7. With positive weights and fetches returning [None] or a number,
    the result is [None] only when every provider returned [None]: a
    single quote, even a rate of 0, gives a number. *)
Theorem aggregation_none_iff http cfg base target :
  Forall (λ item : string * provider_info, 0 < weight item.2) cfg →
  Forall (λ item, typed_fetch http cfg base target item = true) cfg →
  get_advanced_forex_rate http cfg base target = Ok None
  ↔ Forall (λ item, fetch_forex_rate http cfg item.1 base target = Ok JNull)
           cfg.
Proof.
  intros Hpos Hty. split; [|apply get_advanced_forex_rate_all_fail].
  intros Hnone. apply quotes_nil_all_none; [done|].
  destruct (omap (quote_of http cfg base target) cfg) as [|q qs] eqn:Hq;
    [done|].
  rewrite get_advanced_forex_rate_mean in Hnone; [done|done|done|].
  unfold quotes. by rewrite Hq.
Qed.

Lemma aggregation_none_iff_witness :
  Forall (λ item : string * provider_info, 0 < weight item.2) PROVIDER_CONFIG
  ∧ Forall (λ item, typed_fetch (λ _, Ok (JObj [("rates", JObj [("EUR", JNum 0)])]%string))
                                PROVIDER_CONFIG "USD" "EUR" item = true)
           PROVIDER_CONFIG
  ∧ get_advanced_forex_rate
      (λ _, Ok (JObj [("rates", JObj [("EUR", JNum 0)])]%string))
      PROVIDER_CONFIG "USD" "EUR" ≠ Ok None.
Proof.
  assert (Forall (λ item : string * provider_info, 0 < weight item.2)
                 PROVIDER_CONFIG) as Hpos by (repeat constructor).
  assert (Forall (λ item, typed_fetch (λ _, Ok (JObj [("rates", JObj [("EUR", JNum 0)])]%string))
                                PROVIDER_CONFIG "USD" "EUR" item = true)
           PROVIDER_CONFIG) as Hty by (repeat constructor).
  split; [exact Hpos|]. split; [exact Hty|].
  intros Hnone.
  pose proof (proj1 (aggregation_none_iff _ PROVIDER_CONFIG
                       "USD"%string "EUR"%string Hpos Hty) Hnone) as Hall.
  apply Forall_cons in Hall as [Hhost _]. vm_compute in Hhost. discriminate.
Defined.

(** * Further properties of the provider fetches *)

Lemma length_app_slash u : String.length (u +:+ "/") = S (String.length u).
Proof. induction u as [|a u IH]; simpl; [done | by rewrite IH]. Qed.

Lemma substring_last_slash u :
  String.substring (String.length u) 1 (u +:+ "/") = "/"%string.
Proof. induction u as [|a u IH]; simpl; [done | exact IH]. Qed.

Lemma str_endswith_slash u : str_endswith (u +:+ "/") "/" = true.
Proof.
  unfold str_endswith. apply bool_decide_eq_true_2.
  rewrite length_app_slash. simpl. rewrite Nat.sub_0_r.
  split; [apply substring_last_slash | lia].
Qed.

(** X10. For EXCHANGERATE_API a configured URL with and without its
    trailing slash lead to the same request, hence the same result. *)
Theorem api_url_trailing_slash http cfg cfg' endpoint w w' base target :
  assoc "EXCHANGERATE_API"%string cfg = Some (ProviderInfo endpoint w) →
  assoc "EXCHANGERATE_API"%string cfg'
  = Some (ProviderInfo (endpoint +:+ "/") w') →
  str_endswith endpoint "/" = false →
  fetch_forex_rate http cfg' "EXCHANGERATE_API" base target
  = fetch_forex_rate http cfg "EXCHANGERATE_API" base target.
Proof.
  intros Hcfg Hcfg' Hend. unfold fetch_forex_rate. rewrite Hcfg, Hcfg'.
  unfold fetch_body.
  change (str_contains "EXCHANGERATE_HOST" "EXCHANGERATE_API") with false.
  change (str_contains "EXCHANGERATE_API" "EXCHANGERATE_API") with true.
  cbn iota. cbn [url]. by rewrite str_endswith_slash, Hend.
Qed.

Lemma api_url_trailing_slash_witness :
  str_endswith "https://v6.exchangerate-api.com/v6/YOUR_API_KEY/latest" "/"
  = false
  ∧ fetch_forex_rate scenario_http PROVIDER_CONFIG "EXCHANGERATE_API"
                     "USD" "EUR"
    = fetch_forex_rate scenario_http
        [("EXCHANGERATE_API"%string,
          ProviderInfo "https://v6.exchangerate-api.com/v6/YOUR_API_KEY/latest"
                       1)]
        "EXCHANGERATE_API" "USD" "EUR".
Proof.
  assert (str_endswith
            "https://v6.exchangerate-api.com/v6/YOUR_API_KEY/latest" "/"
          = false) as Hend by reflexivity.
  split; [exact Hend|].
  exact (api_url_trailing_slash scenario_http
           [("EXCHANGERATE_API"%string,
             ProviderInfo
               "https://v6.exchangerate-api.com/v6/YOUR_API_KEY/latest" 1)]
           PROVIDER_CONFIG
           "https://v6.exchangerate-api.com/v6/YOUR_API_KEY/latest"%string
           1 (qc 8 10) "USD"%string "EUR"%string eq_refl eq_refl Hend).
Defined.

(** X11. The only exception [fetch_forex_rate] lets out is the
    [KeyError] of a provider key that is not in the configuration: the
    lookup happens before the [try]. *)
Theorem fetch_raises_iff_unconfigured http cfg key base target :
  (assoc key cfg = None →
   fetch_forex_rate http cfg key base target = Raise KeyError)
  ∧ (∀ e, fetch_forex_rate http cfg key base target = Raise e →
          e = KeyError ∧ assoc key cfg = None).
Proof.
  split.
  - intros Hnone. unfold fetch_forex_rate. by rewrite Hnone.
  - intros e He. destruct (assoc key cfg) as [config|] eqn:Hcfg.
    + destruct (fetch_forex_rate_ok http cfg key base target config Hcfg)
        as [v Hv]. congruence.
    + unfold fetch_forex_rate in He. rewrite Hcfg in He.
      split; congruence.
Qed.

Lemma fetch_raises_iff_unconfigured_witness :
  assoc "FIXER"%string PROVIDER_CONFIG = None
  ∧ fetch_forex_rate scenario_http PROVIDER_CONFIG "FIXER" "USD" "EUR"
    = Raise KeyError.
Proof.
  split; [reflexivity|].
  exact (proj1 (fetch_raises_iff_unconfigured scenario_http PROVIDER_CONFIG
                  "FIXER"%string "USD"%string "EUR"%string) eq_refl).
Defined.

(** X12. [fetch_crypto_price] never raises; it returns a value other
    than [None] only when the payload has [data[coin_id]["usd"]], and
    then returns exactly that entry. *)
Theorem fetch_crypto_price_spec http coin_id :
  let req := Request "https://api.coingecko.com/api/v3/simple/price"
                     [("ids", coin_id); ("vs_currencies", "usd")]%string in
  (∃ v, fetch_crypto_price http coin_id = Ok v)
  ∧ (∀ v, fetch_crypto_price http coin_id = Ok v → v ≠ JNull →
          ∃ data coin, http req = Ok data
                       ∧ getitem data coin_id = Ok coin
                       ∧ getitem coin "usd" = Ok v)
  ∧ (∀ data coin v, http req = Ok data →
                    getitem data coin_id = Ok coin →
                    getitem coin "usd" = Ok v →
                    fetch_crypto_price http coin_id = Ok v).
Proof.
  intros req. unfold fetch_crypto_price. fold req. repeat split.
  - unfold try_except. destruct (_ ≫= _); eauto.
  - intros v Hv Hnn.
    destruct (http req) as [data|] eqn:Hhttp; simpl in Hv; [|congruence].
    destruct (getitem data coin_id) as [coin|] eqn:Hcoin; simpl in Hv;
      [|congruence].
    destruct (getitem coin "usd") as [p|] eqn:Hp; simpl in Hv; [|congruence].
    exists data, coin. repeat split; congruence.
  - intros data coin v Hhttp Hcoin Hp. rewrite Hhttp. simpl.
    rewrite Hcoin. simpl. by rewrite Hp.
Qed.

Lemma fetch_crypto_price_spec_witness :
  fetch_crypto_price
    (λ _, Ok (JObj [("bitcoin", JObj [("usd", JNum (qc 30000 1))])]%string))
    "bitcoin"
  = Ok (JNum (qc 30000 1)).
Proof.
  exact (proj2 (proj2 (fetch_crypto_price_spec
           (λ _, Ok (JObj [("bitcoin", JObj [("usd", JNum (qc 30000 1))])]%string))
           "bitcoin"%string)) _ _ _ eq_refl eq_refl eq_refl).
Defined.

(** * Further properties of the alert evaluation *)

Section AlertProperties.

Variable send_email_alert : email_call → result unit.

Lemma alert_loop_app s symbol_name current_price pre rest :
  alert_loop send_email_alert s symbol_name current_price (pre ++ rest)
  = match alert_loop send_email_alert s symbol_name current_price pre with
    | (calls, Ok _) =>
        let '(calls', r) :=
          alert_loop send_email_alert s symbol_name current_price rest in
        (calls ++ calls', r)
    | (calls, Raise e) => (calls, Raise e)
    end.
Proof.
  induction pre as [|alert pre IH]; simpl.
  - by destruct (alert_loop _ _ _ _ rest).
  - destruct (evaluate_alert symbol_name current_price alert)
      as [[] msg_lines]; [|exact IH].
    destruct (alert_user s alert) as [user|]; [|done].
    destruct (send_email_alert _) as [[]|e]; [|done].
    rewrite IH.
    destruct (alert_loop _ s symbol_name current_price pre) as [calls [[]|e]];
      [|done].
    by destruct (alert_loop _ s symbol_name current_price rest).
Qed.


Lemma alert_loop_sound s symbol_name current_price als :
  Forall (λ call, ∃ alert, alert ∈ als
                           ∧ (evaluate_alert symbol_name current_price alert).1
                             = true
                           ∧ alert_call s symbol_name current_price alert
                             = Some call)
         (alert_loop send_email_alert s symbol_name current_price als).1
  ∧ (length (alert_loop send_email_alert s symbol_name current_price als).1
     ≤ length als)%nat.
Proof.
  induction als as [|alert als [IH IHlen]]; [split; [constructor | done]|].
  simpl.
  destruct (evaluate_alert symbol_name current_price alert)
    as [triggered msg_lines] eqn:Hev.
  assert (Forall (λ call, ∃ alert0, alert0 ∈ alert :: als
                           ∧ (evaluate_alert symbol_name current_price alert0).1
                             = true
                           ∧ alert_call s symbol_name current_price alert0
                             = Some call)
            (alert_loop send_email_alert s symbol_name current_price als).1)
    as IH'.
  { eapply Forall_impl; [exact IH|]. intros call (a&?&?&?).
    exists a. split; [by right | done]. }
  destruct triggered; [|split; [done | simpl; lia]].
  destruct (alert_user s alert) as [user|] eqn:Huser;
    [|split; [constructor | simpl; lia]].
  assert (alert_call s symbol_name current_price alert
          = Some (EmailCall (User.email user)
                            ("Price Alert for " +:+ symbol_name) msg_lines))
    as Hcall by (unfold alert_call; by rewrite Huser, Hev).
  assert (∃ alert0, alert0 ∈ alert :: als
            ∧ (evaluate_alert symbol_name current_price alert0).1 = true
            ∧ alert_call s symbol_name current_price alert0
              = Some (EmailCall (User.email user)
                                ("Price Alert for " +:+ symbol_name) msg_lines))
    as Hhead.
  { exists alert. split; [by left|]. by rewrite Hev. }
  destruct (send_email_alert _) as [[]|e].
  - destruct (alert_loop send_email_alert s symbol_name current_price als)
      as [calls r]. simpl in *. split; [by constructor | lia].
  - simpl. split; [by repeat constructor | lia].
Qed.

End AlertProperties.

Lemma evaluate_alert_lines symbol_name current_price alert :
  (evaluate_alert symbol_name current_price alert).1 = true →
  (1 ≤ length (evaluate_alert symbol_name current_price alert).2 ≤ 2)%nat
  ∧ Forall (λ l, line_symbol l = symbol_name ∧ line_price l = current_price)
           (evaluate_alert symbol_name current_price alert).2.
Proof.
  rewrite evaluate_alert_eq. simpl.
  destruct (upper_breached alert current_price),
           (lower_breached alert current_price); simpl; try done;
    intros _; (split; [lia | by repeat constructor]).
Qed.


(** X14. Whatever the collaborator does, every email sent belongs to an
    active rule of the symbol's id that triggered: it goes to that rule's
    user, has the subject ["Price Alert for <name>"] and a body of one or
    two lines, each about this symbol at this price; and there are never
    more emails than active rules of the symbol. *)
Theorem alert_calls_sound send_email_alert s symbol_name current_price :
  Forall (λ call,
            ∃ alert user symbol_obj,
              query_symbol s symbol_name = Some symbol_obj
              ∧ alert ∈ alerts s
              ∧ Alert.active alert = true
              ∧ Alert.symbol_id alert = Symbol.id symbol_obj
              ∧ alert_user s alert = Some user
              ∧ call = EmailCall (User.email user)
                                 ("Price Alert for " +:+ symbol_name)
                                 (evaluate_alert symbol_name current_price
                                                 alert).2
              ∧ (1 ≤ length (body call) ≤ 2)%nat
              ∧ Forall (λ l, line_symbol l = symbol_name
                             ∧ line_price l = current_price) (body call))
         (check_and_trigger_alerts send_email_alert s symbol_name
                                   current_price).1
  ∧ (length (check_and_trigger_alerts send_email_alert s symbol_name
                                      current_price).1
     ≤ length (filter (λ a, Alert.active a = true) (alerts s)))%nat.
Proof.
  unfold check_and_trigger_alerts.
  destruct (query_symbol s symbol_name) as [symbol_obj|] eqn:Hsym;
    [|split; [constructor | simpl; lia]].
  destruct (alert_loop_sound send_email_alert s symbol_name current_price
              (query_alerts s (Symbol.id symbol_obj))) as [Hall Hlen].
  split.
  - eapply Forall_impl; [exact Hall|]. intros call (alert&Hin&Htr&Hcall).
    unfold alert_call in Hcall.
    destruct (alert_user s alert) as [user|] eqn:Huser; [|done].
    simpl in Hcall. injection Hcall as <-.
    apply list_elem_of_filter in Hin as [[Hid Hact] Hin].
    destruct (evaluate_alert_lines symbol_name current_price alert Htr)
      as [Hlines Hbody].
    exists alert, user, symbol_obj. simpl. destruct Hlines.
    split_and!; done.
  - etrans; [exact Hlen|]. unfold query_alerts.
    induction (alerts s) as [|a als IH]; [done|].
    rewrite !filter_cons.
    destruct (decide (_ ∧ _)) as [[_ Hact]|Hn].
    + rewrite decide_True by done. simpl. lia.
    + destruct (decide (Alert.active a = true)); simpl; lia.
Qed.


(** X15. A rule whose lower threshold is below its upper threshold never
    yields both lines in one evaluation. *)
Theorem consistent_rule_single_line symbol_name current_price alert u l :
  Alert.upper_threshold alert = Some u →
  Alert.lower_threshold alert = Some l →
  l < u →
  (length (evaluate_alert symbol_name current_price alert).2 ≤ 1)%nat
  ∧ ¬ (upper_breached alert current_price = true
       ∧ lower_breached alert current_price = true).
Proof.
  intros Hu Hl Hlt.
  assert (¬ (upper_breached alert current_price = true
             ∧ lower_breached alert current_price = true)) as Hnot.
  { unfold upper_breached, lower_breached. rewrite Hu, Hl.
    intros [[_ Hup%bool_decide_eq_true]%andb_true_iff
            [_ Hlo%bool_decide_eq_true]%andb_true_iff].
    apply (Qclt_not_le _ _ Hlt). by etrans. }
  split; [|done]. rewrite evaluate_alert_eq. simpl.
  destruct (upper_breached alert current_price),
           (lower_breached alert current_price); simpl;
    first [lia | by destruct Hnot].
Qed.

Lemma consistent_rule_single_line_witness :
  (length (evaluate_alert "AAPL" (qc 100 1)
             (Alert.mk 1 1 1 (Some (qc 200 1)) (Some (qc 100 1)) true)).2
   ≤ 1)%nat.
Proof.
  assert (qc 100 1 < qc 200 1) as Hlt by reflexivity.
  exact (proj1 (consistent_rule_single_line "AAPL"%string (qc 100 1)
                  (Alert.mk 1 1 1 (Some (qc 200 1)) (Some (qc 100 1)) true)
                  (qc 200 1) (qc 100 1) eq_refl eq_refl Hlt)).
Defined.

(** X16. When the delivery of an email raises, the loop stops there: the
    exception leaves [check_and_trigger_alerts], the failed call is the
    last one made, and the rules after it are not notified. *)
Theorem delivery_failure_aborts send_email_alert s symbol_name current_price
    symbol_obj pre alert post calls call e :
  query_symbol s symbol_name = Some symbol_obj →
  query_alerts s (Symbol.id symbol_obj) = pre ++ alert :: post →
  alert_loop send_email_alert s symbol_name current_price pre
  = (calls, Ok ()) →
  (evaluate_alert symbol_name current_price alert).1 = true →
  alert_call s symbol_name current_price alert = Some call →
  send_email_alert call = Raise e →
  check_and_trigger_alerts send_email_alert s symbol_name current_price
  = (calls ++ [call], Raise e).
Proof.
  intros Hsym Hq Hpre Htr Hcall Hsend. unfold check_and_trigger_alerts.
  rewrite Hsym, Hq, alert_loop_app, Hpre. simpl.
  unfold alert_call in Hcall.
  destruct (evaluate_alert symbol_name current_price alert)
    as [triggered msg_lines]. simpl in Htr. subst triggered.
  destruct (alert_user s alert) as [user|]; [|done].
  simpl in Hcall. injection Hcall as Hcall. rewrite Hcall, Hsend. done.
Qed.

Lemma delivery_failure_aborts_witness :
  check_and_trigger_alerts (λ _, Raise SMTPException) three_rule_session
                           "AAPL" (qc 250 1)
  = ([EmailCall "demo@example.com" "Price Alert for AAPL"
                [MsgLine "AAPL" Above (Some (qc 200 1)) (qc 250 1)]],
     Raise SMTPException).
Proof.
  exact (delivery_failure_aborts (λ _, Raise SMTPException) three_rule_session
           "AAPL"%string (qc 250 1) AAPL []
           (Alert.mk 1 1 1 (Some (qc 200 1)) (Some (qc 100 1)) true)
           [Alert.mk 2 1 1 (Some (qc 150 1)) None true;
            Alert.mk 3 99 1 (Some (qc 300 1)) None true]
           [] _ SMTPException eq_refl eq_refl eq_refl eq_refl eq_refl eq_refl).
Defined.

(** X17. A triggering rule whose user row is missing makes
    [check_and_trigger_alerts] raise [AttributeError] before any email for
    it is sent; the emails of the rules before it have been sent, the
    rules after it are not notified. *)
Theorem missing_user_aborts send_email_alert s symbol_name current_price
    symbol_obj pre alert post calls :
  query_symbol s symbol_name = Some symbol_obj →
  query_alerts s (Symbol.id symbol_obj) = pre ++ alert :: post →
  alert_loop send_email_alert s symbol_name current_price pre
  = (calls, Ok ()) →
  (evaluate_alert symbol_name current_price alert).1 = true →
  alert_user s alert = None →
  check_and_trigger_alerts send_email_alert s symbol_name current_price
  = (calls, Raise AttributeError).
Proof.
  intros Hsym Hq Hpre Htr Huser. unfold check_and_trigger_alerts.
  rewrite Hsym, Hq, alert_loop_app, Hpre. simpl.
  destruct (evaluate_alert symbol_name current_price alert)
    as [triggered msg_lines]. simpl in Htr. subst triggered.
  rewrite Huser. simpl. by rewrite app_nil_r.
Qed.

Lemma missing_user_aborts_witness :
  check_and_trigger_alerts (λ _, Ok ()) three_rule_session "AAPL" (qc 350 1)
  = ([EmailCall "demo@example.com" "Price Alert for AAPL"
                [MsgLine "AAPL" Above (Some (qc 200 1)) (qc 350 1)];
      EmailCall "demo@example.com" "Price Alert for AAPL"
                [MsgLine "AAPL" Above (Some (qc 150 1)) (qc 350 1)]],
     Raise AttributeError).
Proof.
  exact (missing_user_aborts (λ _, Ok ()) three_rule_session
           "AAPL"%string (qc 350 1) AAPL
           [Alert.mk 1 1 1 (Some (qc 200 1)) (Some (qc 100 1)) true;
            Alert.mk 2 1 1 (Some (qc 150 1)) None true]
           (Alert.mk 3 99 1 (Some (qc 300 1)) None true)
           [] _ eq_refl eq_refl eq_refl eq_refl eq_refl).
Defined.

(** * Properties of the main flow *)

Lemma foldl_max_ge rest i :
  (i ≤ foldl Z.max i rest)%Z ∧ Forall (λ x, (x ≤ foldl Z.max i rest)%Z) rest.
Proof.
  revert i. induction rest as [|x rest IH]; intros i; simpl.
  - split; [lia | constructor].
  - destruct (IH (Z.max i x)) as [Hhd Htl]. split; [lia|].
    constructor; [lia | done].
Qed.

Lemma next_id_above ids : Forall (λ i, (i < next_id ids)%Z) ids.
Proof.
  destruct ids as [|i rest]; [constructor|]. unfold next_id.
  destruct (foldl_max_ge rest i) as [Hhd Htl]. constructor; [lia|].
  eapply Forall_impl; [exact Htl|]. simpl. intros x ?. lia.
Qed.

Lemma next_id_fresh ids : next_id ids ∉ ids.
Proof.
  intros Hin. pose proof (next_id_above ids) as Hall.
  rewrite Forall_forall in Hall. specialize (Hall _ Hin). lia.
Qed.

Lemma NoDup_fmap_snoc {A B} (f : A → B) (l : list A) x :
  NoDup (f <$> l) → f x ∉ f <$> l → NoDup (f <$> (l ++ [x])).
Proof.
  intros Hnd Hfresh. rewrite fmap_app. apply NoDup_app. split; [done|].
  split; [|apply NoDup_singleton].
  intros y Hy Hy'. apply list_elem_of_singleton in Hy'. by subst.
Qed.

Lemma head_filter_None {A} (P : A → Prop) `{!∀ x, Decision (P x)} l :
  head (filter P l) = None → Forall (λ x, ¬ P x) l.
Proof.
  induction l as [|x l IH]; [constructor|]. rewrite filter_cons.
  destruct (decide (P x)); [done|]. intros. constructor; [done | by apply IH].
Qed.

Lemma head_filter_app_Some {A} (P : A → Prop) `{!∀ x, Decision (P x)}
    l l' x :
  head (filter P l) = Some x → head (filter P (l ++ l')) = Some x.
Proof.
  rewrite filter_app. by destruct (filter P l).
Qed.

Lemma head_filter_app_Some_is {A} (P : A → Prop) `{!∀ x, Decision (P x)}
    l l' :
  is_Some (head (filter P l)) → is_Some (head (filter P (l ++ l'))).
Proof. intros [x Hx]. exists x. by apply head_filter_app_Some. Qed.

Lemma head_filter_snoc_hit {A} (P : A → Prop) `{!∀ x, Decision (P x)} l x :
  P x → is_Some (head (filter P (l ++ [x]))).
Proof.
  intros HP. rewrite filter_app, filter_cons, decide_True by done.
  destruct (filter P l); simpl; eauto.
Qed.

Lemma extends_refl s : extends s s.
Proof. by repeat split. Qed.

Lemma extends_trans s1 s2 s3 : extends s1 s2 → extends s2 s3 → extends s1 s3.
Proof.
  intros (?&?&?&?) (?&?&?&?). repeat split; by etrans.
Qed.

Lemma upsert_symbol_extends s data :
  extends s (upsert_symbol s data)
  ∧ (consistent s → consistent (upsert_symbol s data))
  ∧ is_Some (query_symbol (upsert_symbol s data) data.1)
  ∧ (∀ n, is_Some (query_symbol s n) →
          query_symbol (upsert_symbol s data) n = query_symbol s n).
Proof.
  unfold upsert_symbol.
  destruct (query_symbol s data.1) as [sym|] eqn:Hq.
  - split; [apply extends_refl|]. split; [done|]. split; [by rewrite Hq|done].
  - split; [|split; [|split]].
    + repeat split; simpl; try done. by apply prefix_app_r.
    + intros [? ? ? ? ? ? ?]. split; simpl; try done.
      * apply NoDup_fmap_snoc; [done|]. simpl. apply next_id_fresh.
      * apply NoDup_fmap_snoc; [done|]. simpl.
        apply head_filter_None in Hq. rewrite Forall_forall in Hq.
        intros (sym&Hname&Hin)%list_elem_of_fmap. by apply (Hq sym).
    + unfold query_symbol, add_symbol. simpl. by apply head_filter_snoc_hit.
    + intros n [sym Hn]. unfold query_symbol, add_symbol in *. simpl.
      rewrite Hn. by apply head_filter_app_Some.
Qed.

Lemma upsert_symbols_extends s data :
  extends s (foldl upsert_symbol s data)
  ∧ (consistent s → consistent (foldl upsert_symbol s data))
  ∧ Forall (λ d, is_Some (query_symbol (foldl upsert_symbol s data) d.1)) data
  ∧ (∀ n, is_Some (query_symbol s n) →
          query_symbol (foldl upsert_symbol s data) n = query_symbol s n).
Proof.
  revert s. induction data as [|d data IH]; intros s; simpl.
  - split; [apply extends_refl|]. split; [done|]. split; [constructor|done].
  - destruct (upsert_symbol_extends s d) as (He&Hc&Hq&Hk).
    destruct (IH (upsert_symbol s d)) as (He'&Hc'&Hq'&Hk').
    split; [by eapply extends_trans|]. split; [by auto|]. split.
    + constructor; [|done]. rewrite Hk' by done. done.
    + intros n Hn. rewrite Hk'; rewrite Hk; done.
Qed.

Lemma upsert_symbols_fixed s data :
  Forall (λ d, is_Some (query_symbol s d.1)) data →
  foldl upsert_symbol s data = s.
Proof.
  intros Hall. induction Hall as [|d data [sym Hd] _ IH]; [done|].
  simpl. unfold upsert_symbol at 2. by rewrite Hd.
Qed.

Lemma upsert_symbols_tables s data :
  users (foldl upsert_symbol s data) = users s
  ∧ transactions (foldl upsert_symbol s data) = transactions s
  ∧ alerts (foldl upsert_symbol s data) = alerts s.
Proof.
  revert s. induction data as [|d data IH]; intros s; [done|]. simpl.
  destruct (IH (upsert_symbol s d)) as (->&->&->).
  unfold upsert_symbol. by destruct (query_symbol s d.1).
Qed.

Lemma head_filter_snoc_new {A} (P : A → Prop) `{!∀ x, Decision (P x)} l x :
  head (filter P l) = None → P x → head (filter P (l ++ [x])) = Some x.
Proof.
  intros Hnone HP. rewrite filter_app, filter_cons, decide_True by done.
  destruct (filter P l); [done | discriminate].
Qed.

Lemma main_state_eta st : MainState (db st) (printed st) (sent st) = st.
Proof. by destruct st. Qed.

Section MainProperties.

Variable utcnow : nat → Z.

(** Step 2 either finds the user, or stops on the unique constraint
    with nothing written, or appends the new user. *)
Lemma demo_user_step_spec st :
  let r := demo_user_step st in
  printed r.1 = printed st ∧ sent r.1 = sent st
  ∧ symbols (db r.1) = symbols (db st)
  ∧ transactions (db r.1) = transactions (db st)
  ∧ alerts (db r.1) = alerts (db st)
  ∧ users (db st) `prefix_of` users (db r.1)
  ∧ (consistent (db st) → consistent (db r.1))
  ∧ (∀ user, query_user (db st) "demo" = Some user → r = (st, inr user))
  ∧ match r.2 with
    | inl e => e = IntegrityError ∧ r.1 = st
    | inr user => query_user (db r.1) "demo" = Some user
    end.
Proof.
  unfold demo_user_step, bindM, get_session, put_session, retM, raiseM.
  simpl.
  destruct (query_user (db st) "demo") as [user|] eqn:Hq; simpl.
  - split_and!; try done. by intros ? [= ->].
  - destruct (decide (Exists _ (users (db st)))) as [Hex|Hnex]; simpl.
    + split_and!; done.
    + split_and!; try done.
      * by apply prefix_app_r.
      * intros [? ? ? ? ? ? ?]. split; simpl; try done.
        -- apply NoDup_fmap_snoc; [done|]. simpl. apply next_id_fresh.
        -- apply NoDup_fmap_snoc; [done|]. simpl.
           apply head_filter_None in Hq. rewrite Forall_forall in Hq.
           intros (u&Hname&Hin)%list_elem_of_fmap. by apply (Hq u).
        -- apply NoDup_fmap_snoc; [done|]. simpl.
           intros (u&Hmail&Hin)%list_elem_of_fmap. apply Hnex.
           apply Exists_exists. by exists u.
      * unfold query_user, add_user. simpl.
        by apply head_filter_snoc_new.
Qed.

Lemma symbols_step_spec st :
  let r := symbols_step st in
  r.2 = inr ()
  ∧ printed r.1 = printed st ∧ sent r.1 = sent st
  ∧ users (db r.1) = users (db st)
  ∧ transactions (db r.1) = transactions (db st)
  ∧ alerts (db r.1) = alerts (db st)
  ∧ symbols (db st) `prefix_of` symbols (db r.1)
  ∧ (consistent (db st) → consistent (db r.1))
  ∧ Forall (λ d, is_Some (query_symbol (db r.1) d.1)) symbols_data
  ∧ (Forall (λ d, is_Some (query_symbol (db st) d.1)) symbols_data →
     r.1 = st).
Proof.
  unfold symbols_step, bindM, get_session, put_session, retM, raiseM.
  cbn [fst snd db printed sent].
  destruct (upsert_symbols_tables (db st) symbols_data) as (Hu&Ht&Ha).
  destruct (upsert_symbols_extends (db st) symbols_data)
    as ((_&Hs&_&_)&Hc&Hq&_).
  split_and!; try done.
  intros Hall. rewrite upsert_symbols_fixed by done. apply main_state_eta.
Qed.

Lemma transactions_step_spec user aapl btc st :
  let r := transactions_step utcnow user (Some aapl) (Some btc) st in
  r.2 = inr ()
  ∧ printed r.1 = printed st ∧ sent r.1 = sent st
  ∧ users (db r.1) = users (db st)
  ∧ symbols (db r.1) = symbols (db st)
  ∧ alerts (db r.1) = alerts (db st)
  ∧ transactions (db st) `prefix_of` transactions (db r.1)
  ∧ (NoDup (Transaction.id <$> transactions (db st)) →
     NoDup (Transaction.id <$> transactions (db r.1)))
  ∧ is_Some (head (filter (λ t, Transaction.user_id t = User.id user)
                          (transactions (db r.1))))
  ∧ (is_Some (head (filter (λ t, Transaction.user_id t = User.id user)
                           (transactions (db st)))) →
     r.1 = st).
Proof.
  unfold transactions_step, symbol_id_of, bindM, get_session, put_session,
    retM, raiseM. simpl.
  destruct (head (filter _ (transactions (db st)))) as [t|] eqn:Hq; simpl.
  - split_and!; done.
  - split_and!; try done.
    + rewrite <- (assoc_L (++)). by apply prefix_app_r.
    + intros Hnd. apply NoDup_fmap_snoc; [apply NoDup_fmap_snoc|].
      * done.
      * simpl. apply next_id_fresh.
      * simpl. apply next_id_fresh.
    + apply head_filter_app_Some_is. by apply head_filter_snoc_hit.
Qed.

Lemma alert_step_spec user symbol_obj upper lower st :
  let r := alert_step user (Some symbol_obj) upper lower st in
  r.2 = inr ()
  ∧ printed r.1 = printed st ∧ sent r.1 = sent st
  ∧ users (db r.1) = users (db st)
  ∧ symbols (db r.1) = symbols (db st)
  ∧ transactions (db r.1) = transactions (db st)
  ∧ alerts (db st) `prefix_of` alerts (db r.1)
  ∧ (NoDup (Alert.id <$> alerts (db st)) →
     NoDup (Alert.id <$> alerts (db r.1)))
  ∧ is_Some (head (filter (λ a, Alert.user_id a = User.id user
                                ∧ Alert.symbol_id a = Symbol.id symbol_obj)
                          (alerts (db r.1))))
  ∧ (is_Some (head (filter (λ a, Alert.user_id a = User.id user
                                 ∧ Alert.symbol_id a = Symbol.id symbol_obj)
                           (alerts (db st)))) →
     r.1 = st).
Proof.
  unfold alert_step, symbol_id_of, bindM, get_session, put_session,
    retM, raiseM. simpl.
  destruct (head (filter _ (alerts (db st)))) as [a|] eqn:Hq; simpl.
  - split_and!; done.
  - split_and!; try done.
    + by apply prefix_app_r.
    + intros Hnd. apply NoDup_fmap_snoc; [done|]. simpl. apply next_id_fresh.
    + by apply head_filter_snoc_hit.
Qed.

Lemma is_Some_head_filter_prefix {A} (P : A → Prop)
    `{!∀ x, Decision (P x)} l l' :
  l `prefix_of` l' → is_Some (head (filter P l)) →
  is_Some (head (filter P l')).
Proof. intros [k ->]. apply head_filter_app_Some_is. Qed.

(** What steps 2 to 5 leave behind: nothing printed or sent, tables only
    extended, the schema's constraints kept; they stop only on the unique
    constraint of the user's email, before anything is written, and
    otherwise every row [main] looks for is there. *)
Lemma seed_spec st :
  let r := seed utcnow st in
  printed r.1 = printed st ∧ sent r.1 = sent st
  ∧ extends (db st) (db r.1)
  ∧ (consistent (db st) → consistent (db r.1))
  ∧ match r.2 with
    | inl e => e = IntegrityError ∧ r.1 = st
                ∧ (demo_user_step st).2 = inl IntegrityError
    | inr (user, aapl) =>
        ∃ a b, aapl = Some a ∧ seeded (db r.1) user a b
    end.
Proof.
  unfold seed, bindM.
  pose proof (demo_user_step_spec st) as H1. cbv zeta in H1.
  destruct (demo_user_step st) as [st1 [e|user]]; cbn [fst snd] in *.
  { destruct H1 as (_&_&_&_&_&_&_&_&->&->).
    split_and!; first [done | apply extends_refl]. }
  destruct H1 as (Hp1&Hs1&Hsy1&Ht1&Ha1&Hu1&Hc1&_&Hq1).
  pose proof (symbols_step_spec st1) as H2. cbv zeta in H2.
  destruct (symbols_step st1) as [st2 r2]; cbn [fst snd] in *.
  destruct H2 as (->&Hp2&Hs2&Hu2&Ht2&Ha2&Hsy2&Hc2&Hq2&_).
  unfold get_session at 1. simpl.
  apply Forall_cons in Hq2 as [[a Haapl] Hq2].
  apply Forall_cons in Hq2 as [[b Hbtc] Hq2].
  apply Forall_cons in Hq2 as [Hfx _]. simpl in Haapl, Hbtc, Hfx.
  rewrite Haapl, Hbtc.
  pose proof (transactions_step_spec user a b st2) as H3. cbv zeta in H3.
  destruct (transactions_step utcnow user (Some a) (Some b) st2)
    as [st3 r3]; cbn [fst snd] in *.
  destruct H3 as (->&Hp3&Hs3&Hu3&Hsy3&Ha3&Ht3&Hnd3&Hq3&_).
  pose proof (alert_step_spec user a (qc 200 1) (qc 100 1) st3) as H4.
  cbv zeta in H4.
  destruct (alert_step user (Some a) (qc 200 1) (qc 100 1) st3)
    as [st4 r4]; cbn [fst snd] in *.
  destruct H4 as (->&Hp4&Hs4&Hu4&Hsy4&Ht4&Ha4&Hnd4&Hq4&_).
  pose proof (alert_step_spec user b (qc 40000 1) (qc 20000 1) st4) as H5.
  cbv zeta in H5.
  destruct (alert_step user (Some b) (qc 40000 1) (qc 20000 1) st4)
    as [st5 r5]; cbn [fst snd] in *.
  destruct H5 as (->&Hp5&Hs5&Hu5&Hsy5&Ht5&Ha5&Hnd5&Hq5&_).
  unfold retM. simpl. split_and!.
  - congruence.
  - congruence.
  - unfold extends. rewrite Hu5, Hu4, Hu3, Hu2, Hsy5, Hsy4, Hsy3, Ht5, Ht4.
    split_and!.
    + done.
    + by rewrite <- Hsy1.
    + by rewrite <- Ht1, <- Ht2.
    + rewrite <- Ha1, <- Ha2, <- Ha3. by etrans.
  - intros Hc. destruct (Hc2 (Hc1 Hc)) as [? ? ? ? ? ? ?].
    split; rewrite ?Hu5, ?Hu4, ?Hu3, ?Hsy5, ?Hsy4, ?Hsy3, ?Ht5, ?Ht4;
      try done.
    + by apply Hnd3.
    + apply Hnd5, Hnd4. by rewrite Ha3.
  - exists a, b. split; [done|]. unfold seeded, query_user, query_symbol.
    rewrite Hu5, Hu4, Hu3, Hu2, Hsy5, Hsy4, Hsy3, Ht5, Ht4.
    split_and!; try done.
    by eapply is_Some_head_filter_prefix.
Qed.

(** On a database that has those rows, steps 2 to 5 change nothing. *)
Lemma seed_noop st user a b :
  seeded (db st) user a b → seed utcnow st = (st, inr (user, Some a)).
Proof.
  intros (Hu&Ha&Hb&Hfx&Ht&Haa&Hab). unfold seed, bindM.
  pose proof (demo_user_step_spec st) as H1. cbv zeta in H1.
  destruct H1 as (_&_&_&_&_&_&_&Hfix&_). rewrite (Hfix user Hu).
  pose proof (symbols_step_spec st) as H2. cbv zeta in H2.
  destruct H2 as (Hr2&_&_&_&_&_&_&_&_&Hfix2).
  assert (symbols_step st = (st, inr ())) as ->.
  { rewrite (surjective_pairing (symbols_step st)), Hr2, Hfix2; [done|].
    repeat constructor; simpl; by rewrite ?Ha, ?Hb. }
  unfold get_session at 1. simpl. rewrite Ha, Hb.
  pose proof (transactions_step_spec user a b st) as H3. cbv zeta in H3.
  destruct H3 as (Hr3&_&_&_&_&_&_&_&_&Hfix3).
  assert (transactions_step utcnow user (Some a) (Some b) st = (st, inr ()))
    as -> by (by rewrite (surjective_pairing (transactions_step _ _ _ _ _)),
                Hr3, Hfix3).
  pose proof (alert_step_spec user a (qc 200 1) (qc 100 1) st) as H4.
  cbv zeta in H4. destruct H4 as (Hr4&_&_&_&_&_&_&_&_&Hfix4).
  assert (alert_step user (Some a) (qc 200 1) (qc 100 1) st = (st, inr ()))
    as -> by (by rewrite (surjective_pairing (alert_step _ _ _ _ _)),
                Hr4, Hfix4).
  pose proof (alert_step_spec user b (qc 40000 1) (qc 20000 1) st) as H5.
  cbv zeta in H5. destruct H5 as (Hr5&_&_&_&_&_&_&_&_&Hfix5).
  assert (alert_step user (Some b) (qc 40000 1) (qc 20000 1) st
          = (st, inr ()))
    as -> by (by rewrite (surjective_pairing (alert_step _ _ _ _ _)),
                Hr5, Hfix5).
  done.
Qed.

Lemma seed_error_independent utcnow' st e :
  (seed utcnow st).2 = inl e → (seed utcnow' st).2 = inl e.
Proof.
  intros He. destruct (seed_spec st) as (_&_&_&_&Hr). rewrite He in Hr.
  destruct Hr as (->&_&Hdemo). unfold seed, bindM.
  destruct (demo_user_step st) as [st1 [e1|user]]; simpl in *; congruence.
Qed.

End MainProperties.

Lemma keeps_db_bind {A B} (m : M A) (k : A → M B) :
  keeps_db m → (∀ a, keeps_db (k a)) → keeps_db (bindM m k).
Proof.
  intros Hm Hk st. unfold bindM. specialize (Hm st).
  destruct (m st) as [st1 [e|a]]; simpl in *; [done|].
  by rewrite Hk.
Qed.

Lemma keeps_db_ret {A} (a : A) : keeps_db (retM a).
Proof. done. Qed.

Lemma keeps_db_raise {A} e : keeps_db (@raiseM A e).
Proof. done. Qed.

Lemma keeps_db_get : keeps_db get_session.
Proof. done. Qed.

Lemma keeps_db_print o : keeps_db (printM o).
Proof. done. Qed.

Lemma keeps_db_symbol_id o : keeps_db (symbol_id_of o).
Proof. by destruct o. Qed.

Lemma keeps_db_format v : keeps_db (format_float v).
Proof. by destruct v. Qed.

Lemma keeps_db_alerts send_email_alert symbol_name price :
  keeps_db (run_alerts send_email_alert symbol_name price).
Proof.
  intros st. unfold run_alerts.
  destruct (check_and_trigger_alerts _ _ _ _) as [calls [[]|e]]; done.
Qed.

Create HintDb keeps_db.
#[local] Hint Resolve keeps_db_ret keeps_db_raise keeps_db_get keeps_db_print
  keeps_db_symbol_id keeps_db_format keeps_db_alerts : keeps_db.

(** Closes [keeps_db] goals along the structure of the computation. *)
Ltac keeps_db_step :=
  first
    [ apply keeps_db_bind; [|intros ?]
    | progress auto with keeps_db
    | match goal with
      | |- keeps_db (match ?x with _ => _ end) => destruct x
      | |- keeps_db (if ?b then _ else _) => destruct b
      end ].

Lemma keeps_db_prices fetch_stock_price http send_email_alert :
  keeps_db (prices_step fetch_stock_price http send_email_alert).
Proof. unfold prices_step. repeat keeps_db_step. Qed.

Lemma main_db utcnow fetch_stock_price http send_email_alert st :
  db (main utcnow fetch_stock_price http send_email_alert st).1
  = db (seed utcnow st).1.
Proof.
  unfold main. unfold bindM at 1.
  destruct (seed utcnow st) as [st1 [e|[user aapl]]]; simpl; [done|].
  assert (keeps_db
            (prices_step fetch_stock_price http send_email_alert;;;
             s <~ get_session;;
             aapl_id <~ symbol_id_of aapl;;
             printM (PrintValue "AAPL average cost basis: $"
                       (calculate_average_cost_basis s (User.id user) aapl_id));;;
             printM (PrintHoldings (get_current_holdings s (User.id user)));;;
             printM (PrintText "Done."))) as Hk.
  { apply keeps_db_bind; [apply keeps_db_prices|]. intros _.
    repeat keeps_db_step. }
  apply Hk.
Qed.

(** X18. Running [main] again changes nothing in the database: whatever
    the first run wrote or found, a second run, with any prices and any
    clock, leaves every table as the first run left it. *)
Theorem main_rerun_keeps_database
    utcnow fetch_stock_price http send_email_alert
    utcnow' fetch_stock_price' http' send_email_alert' st :
  let st1 := (main utcnow fetch_stock_price http send_email_alert st).1 in
  db (main utcnow' fetch_stock_price' http' send_email_alert' st1).1
  = db st1.
Proof.
  intros st1. rewrite main_db.
  assert (db st1 = db (seed utcnow st).1) as Hdb by apply main_db.
  destruct (seed_spec utcnow' st1) as (_&_&_&_&Hr').
  destruct ((seed utcnow' st1).2) as [e'|[user' aapl']] eqn:Hr2.
  - by destruct Hr' as (_&->&_).
  - destruct (seed_spec utcnow st) as (_&_&_&_&Hr).
    destruct ((seed utcnow st).2) as [e|[user aapl]] eqn:Hr1.
    + destruct Hr as (->&Hst&_).
      assert (st1 = st) as Hst1.
      { unfold st1, main. unfold bindM at 1.
        destruct (seed utcnow st) as [st2 [e2|?]]; simpl in *; congruence. }
      rewrite Hst1 in Hr2.
      rewrite (seed_error_independent utcnow utcnow' st _ Hr1) in Hr2.
      done.
    + destruct Hr as (a&b&_&Hseeded). rewrite <- Hdb in Hseeded.
      by rewrite (seed_noop utcnow' st1 user a b Hseeded).
Qed.

(** X19. [main] only appends rows, and it keeps the primary keys and the
    unique columns of the schema unique. *)
Theorem main_keeps_schema utcnow fetch_stock_price http send_email_alert st :
  consistent (db st) →
  consistent (db (main utcnow fetch_stock_price http send_email_alert st).1)
  ∧ extends (db st)
            (db (main utcnow fetch_stock_price http send_email_alert st).1).
Proof.
  intros Hc. rewrite main_db.
  destruct (seed_spec utcnow st) as (_&_&He&Hc'&_). split; [by apply Hc'|done].
Qed.

Lemma main_keeps_schema_witness :
  consistent empty_db
  ∧ consistent (db (main Z.of_nat (λ _, Some (qc 250 1)) scenario_http
                         (λ _, Ok ()) (MainState empty_db [] [])).1).
Proof.
  assert (consistent empty_db) as Hc by (split; constructor).
  split; [exact Hc|].
  exact (proj1 (main_keeps_schema Z.of_nat (λ _, Some (qc 250 1))
                  scenario_http (λ _, Ok ()) (MainState empty_db [] []) Hc)).
Defined.

Lemma bindM_eq {A B} (m : M A) (k : A → M B) st :
  bindM m k st
  = match m st with
    | (st', inr a) => k a st'
    | (st', inl e) => (st', inl e)
    end.
Proof. done. Qed.

Lemma prices_step_falsy fetch_stock_price http send_email_alert st :
  (fetch_stock_price "AAPL"%string = None
   ∨ fetch_stock_price "AAPL"%string = Some 0) →
  (∃ v, fetch_crypto_price http "bitcoin" = Ok v ∧ json_truthy v = false) →
  (get_advanced_forex_rate http PROVIDER_CONFIG "USD" "EUR" = Ok None
   ∨ get_advanced_forex_rate http PROVIDER_CONFIG "USD" "EUR" = Ok (Some 0)) →
  prices_step fetch_stock_price http send_email_alert st = (st, inr ()).
Proof.
  intros Hstock (v&Hcrypto&Hv) Hfx. unfold prices_step, bindM.
  rewrite Hcrypto, Hv.
  destruct Hstock as [->| ->], Hfx as [->| ->]; simpl; done.
Qed.

(** X20. [main] checks the alerts of a symbol only for a truthy price: when
    each of the three prices is missing or 0, no rule is evaluated and no
    email is sent, whatever rules the database holds, and [main] ends
    normally unless the demo user's email is already taken. *)
Theorem main_skips_falsy_prices
    utcnow fetch_stock_price http send_email_alert st :
  (fetch_stock_price "AAPL"%string = None
   ∨ fetch_stock_price "AAPL"%string = Some 0) →
  (∃ v, fetch_crypto_price http "bitcoin" = Ok v ∧ json_truthy v = false) →
  (get_advanced_forex_rate http PROVIDER_CONFIG "USD" "EUR" = Ok None
   ∨ get_advanced_forex_rate http PROVIDER_CONFIG "USD" "EUR" = Ok (Some 0)) →
  sent (main utcnow fetch_stock_price http send_email_alert st).1 = sent st
  ∧ ((main utcnow fetch_stock_price http send_email_alert st).2 = inr ()
     ∨ (main utcnow fetch_stock_price http send_email_alert st).2
       = inl IntegrityError).
Proof.
  intros Hstock Hcrypto Hfx. unfold main. rewrite bindM_eq.
  destruct (seed_spec utcnow st) as (_&Hsent&_&_&Hr).
  destruct (seed utcnow st) as [st1 [e|[user aapl]]]; cbn [fst snd] in *.
  - destruct Hr as (->&->&_). split; [done | by right].
  - destruct Hr as (a&b&->&_). rewrite bindM_eq.
    rewrite prices_step_falsy by done. simpl. split; [done | by left].
Qed.

Lemma main_skips_falsy_prices_witness :
  sent (main Z.of_nat (λ _, Some 0) (λ _, Raise RequestException)
             (λ _, Ok ())
             (MainState zero_threshold_session [] [])).1 = [].
Proof.
  refine (proj1 (main_skips_falsy_prices Z.of_nat (λ _, Some 0)
                   (λ _, Raise RequestException) (λ _, Ok ())
                   (MainState zero_threshold_session [] []) _ _ _)).
  - by right.
  - exists JNull. by split.
  - by left.
Defined.

(** * Properties of the dashboard table *)

Lemma holdings_items_keys s user_id : NoDup ((holdings_items s user_id).*1).
Proof.
  unfold holdings_items, grouped_results. rewrite <- list_fmap_compose.
  assert (∀ l : list string,
            (fst ∘ (λ n, (n, group_sum (joined_rows s user_id) n))) <$> l = l)
    as ->.
  { intros l. induction l as [|x l IH]; [done|]. by rewrite fmap_cons, IH. }
  apply NoDup_remove_dups.
Qed.

Lemma holdings_items_lookup s user_id n q :
  (n, q) ∈ holdings_items s user_id
  ↔ get_current_holdings s user_id !! n = Some q.
Proof.
  rewrite get_current_holdings_lookup. unfold holdings_items, grouped_results.
  rewrite list_elem_of_fmap. setoid_rewrite elem_of_remove_dups. split.
  - intros (n'&[= -> ->]&Hin). by rewrite decide_True.
  - destruct (decide _) as [Hin|]; [|done]. intros [= <-]. by exists n.
Qed.

Section DashboardProperties.

Variable round : float → Z → float.
Variable fetch_stock_price : string → option float.
Variable http : request → result json.

Lemma truthy_number_nonzero v p :
  json_truthy v = true → as_number v = Some p → p ≠ 0.
Proof.
  destruct v as [|[]|x| | |]; simpl; try done.
  - intros _ [= <-]. done.
  - intros Hx%bool_decide_eq_true [= <-]. done.
Qed.

(** What a row says about the holding it was made from. *)
Lemma row_of_Some s user_id item r :
  row_of round fetch_stock_price http s user_id item = inr (Some r) →
  ∃ symbol_obj v p,
    row_symbol r = item.1 ∧ row_quantity r = item.2 ∧ item.2 ≠ 0
    ∧ query_symbol s item.1 = Some symbol_obj
    ∧ current_price_of fetch_stock_price http symbol_obj item.1 = inr v
    ∧ as_number v = Some p ∧ p ≠ 0
    ∧ row_avg_cost r
      = round (calculate_average_cost_basis s user_id (Symbol.id symbol_obj)) 2
    ∧ row_current_price r = round p 4
    ∧ row_market_value r = round (item.2 * p) 2.
Proof.
  destruct item as [sym_name quantity]. unfold row_of.
  destruct (decide (quantity = 0)); [done|].
  destruct (query_symbol s sym_name) as [symbol_obj|] eqn:Hsym; [|done].
  destruct (current_price_of _ _ _ _) as [e|v] eqn:Hprice; [done|].
  destruct (json_truthy v) eqn:Hv; [|done].
  destruct (as_number v) as [p|] eqn:Hp; [|done].
  intros [= <-]. exists symbol_obj, v, p. simpl.
  pose proof (truthy_number_nonzero v p Hv Hp). split_and!; done.
Qed.

Lemma rows_loop_sound s user_id items rows :
  rows_loop round fetch_stock_price http s user_id items = inr rows →
  (row_symbol <$> rows) `sublist_of` (items.*1)
  ∧ Forall (λ r, ∃ item, item ∈ items
                         ∧ row_of round fetch_stock_price http s user_id item
                           = inr (Some r)) rows.
Proof.
  revert rows. induction items as [|item items IH]; intros rows; simpl.
  - intros [= <-]. split; [done | constructor].
  - destruct (row_of _ _ _ s user_id item) as [e|r] eqn:Hrow; [done|].
    destruct (rows_loop _ _ _ s user_id items) as [e|rows'] eqn:Hloop;
      [done|].
    intros [= <-]. destruct (IH rows' eq_refl) as [Hsub Hall].
    assert (Forall (λ r, ∃ item0, item0 ∈ item :: items
                           ∧ row_of round fetch_stock_price http s user_id item0
                             = inr (Some r)) rows') as Hall'.
    { eapply Forall_impl; [exact Hall|]. intros r' (i&?&?).
      exists i. split; [by right | done]. }
    destruct r as [r|]; simpl.
    + split.
      * destruct (row_of_Some s user_id item r Hrow) as (?&?&?&->&_).
        by apply sublist_skip.
      * constructor; [|done]. exists item. split; [by left | done].
    + split; [by apply sublist_cons | done].
Qed.

Lemma rows_loop_complete s user_id items rows item symbol_obj v :
  rows_loop round fetch_stock_price http s user_id items = inr rows →
  item ∈ items → item.2 ≠ 0 →
  query_symbol s item.1 = Some symbol_obj →
  current_price_of fetch_stock_price http symbol_obj item.1 = inr v →
  json_truthy v = true →
  ∃ r, r ∈ rows ∧ row_symbol r = item.1.
Proof.
  intros Hloop Hin Hq Hsym Hprice Hv. revert rows Hloop.
  induction items as [|item' items IH]; intros rows; simpl;
    [by apply elem_of_nil in Hin|].
  destruct (row_of _ _ _ s user_id item') as [e|r'] eqn:Hrow; [done|].
  destruct (rows_loop _ _ _ s user_id items) as [e|rows'] eqn:Hloop; [done|].
  intros [= <-]. apply elem_of_cons in Hin as [<-|Hin].
  - destruct item as [sym_name quantity]. unfold row_of in Hrow.
    simpl in *. rewrite decide_False, Hsym, Hprice, Hv in Hrow by done.
    destruct (as_number v) as [p|]; [|done]. injection Hrow as <-.
    eexists. split; [by left | done].
  - destruct (IH Hin rows' eq_refl) as (r&Hr&Hname).
    exists r. split; [|done]. apply elem_of_app. by right.
Qed.

End DashboardProperties.

(** X21. When the table is built without an exception, it has at most
    one row per symbol, in the order of the holdings; every row is a
    holding of the user with a non-zero net quantity, an existing symbol
    and a price that is neither missing nor 0, and carries that quantity,
    the rounded cost basis, the rounded price and the rounded product;
    and every such holding has a row. *)
Theorem dashboard_rows_spec (round : float → Z → float) fetch_stock_price
    http s user_id rows :
  dashboard_rows round fetch_stock_price http s user_id = inr rows →
  NoDup (row_symbol <$> rows)
  ∧ Forall
      (λ r, ∃ symbol_obj v p,
              get_current_holdings s user_id !! row_symbol r
              = Some (row_quantity r)
              ∧ row_quantity r ≠ 0
              ∧ query_symbol s (row_symbol r) = Some symbol_obj
              ∧ current_price_of fetch_stock_price http symbol_obj
                                 (row_symbol r) = inr v
              ∧ as_number v = Some p ∧ p ≠ 0
              ∧ row_avg_cost r
                = round (calculate_average_cost_basis s user_id
                           (Symbol.id symbol_obj)) 2%Z
              ∧ row_current_price r = round p 4%Z
              ∧ row_market_value r = round (row_quantity r * p) 2%Z)
      rows
  ∧ (∀ n q symbol_obj v,
       get_current_holdings s user_id !! n = Some q → q ≠ 0 →
       query_symbol s n = Some symbol_obj →
       current_price_of fetch_stock_price http symbol_obj n = inr v →
       json_truthy v = true →
       ∃ r, r ∈ rows ∧ row_symbol r = n).
Proof.
  unfold dashboard_rows. intros Hrows.
  destruct (rows_loop_sound round fetch_stock_price http s user_id _ _ Hrows)
    as [Hsub Hall].
  split; [|split].
  - eapply sublist_NoDup; [apply holdings_items_keys | exact Hsub].
  - eapply Forall_impl; [exact Hall|]. intros r ([n q]&Hin&Hrow).
    destruct (row_of_Some round fetch_stock_price http s user_id _ _ Hrow)
      as (symbol_obj&v&p&Hn&Hq&Hnz&Hsym&Hprice&Hp&Hpnz&Havg&Hcur&Hval).
    simpl in *. exists symbol_obj, v, p. rewrite Hn, Hq.
    split_and!; try done. by apply holdings_items_lookup.
  - intros n q symbol_obj v Hlook Hq Hsym Hprice Hv.
    apply (rows_loop_complete round fetch_stock_price http s user_id
             (holdings_items s user_id) rows (n, q) symbol_obj v); try done.
    by apply holdings_items_lookup.
Qed.

Lemma dashboard_rows_spec_witness :
  ∃ rows,
    dashboard_rows (λ x _, x) (λ _, Some (qc 150 1)) scenario_http
                   ledger_scenario 1 = inr rows
    ∧ NoDup (row_symbol <$> rows)
    ∧ ∃ r, r ∈ rows ∧ row_symbol r = "AAPL"%string.
Proof.
  destruct (dashboard_rows (λ x _, x) (λ _, Some (qc 150 1)) scenario_http
              ledger_scenario 1) as [e|rows] eqn:Hrows;
    [vm_compute in Hrows; discriminate|].
  exists rows. split; [done|].
  destruct (dashboard_rows_spec _ _ _ _ _ _ Hrows) as (Hnd&_&Hall).
  split; [exact Hnd|].
  apply (Hall "AAPL"%string (qc 6 1) AAPL (JNum (qc 150 1))).
  - compute_done.
  - compute_done.
  - reflexivity.
  - reflexivity.
  - reflexivity.
Defined.
